(** * Replicated marketplace: load balancer, versioned store, failover

    A shallow embedding of [exp5_enhanced_server.py]: the [LoadBalancer]
    class and the [EnhancedMarketplaceNode] class, with the properties of
    the replication, fail-over and load-balancing engine proved about it.

    Conventions of the embedding.
    - Python objects mutated in place become records passed through the
      functions: a method [m(self, x)] is a function [m x self] returning
      the new [self] next to its result.
    - A Python exception is a value of [exn]; a method that can raise
      returns a [result].  Where the source wraps typed data in
      [try/except] and no statement of the body can raise on that data, the
      handler is unreachable and is left out, with a remark.
    - Requests are typed messages: quantities and versions are integers,
      names are strings.  Python [int] is [Z]; Python [float] is the
      binary64 type [float] of the kernel.
    - The clock, the random generator and the network are the environment:
      every reading of them is an argument of the function that makes it.
    - A lock-protected method runs as one atomic step.
    - A connection carries one JSON document.  The receiving side is
      modelled from the bytes [recv] returns; a message a node builds
      refers to the inventory dict of the node, and its text is written
      when the sender serialises it. *)

From Stdlib Require Import ZArith Floats Ascii String.
From stdpp Require Import gmap strings list fin_maps pretty.

#[local] Set Warnings "-register-all,-inexact-float".
#[local] Open Scope Z_scope.

(** ** Python values *)

(** The exceptions the modelled code can raise. *)
Inductive exn :=
| IndexError
| KeyError (key : string)
| AttributeError
| ValueError.

(** [str(e)]: the text of [KeyError] is the [repr] of its key, which is the
    key between single quotes for the identifiers used here (no quote,
    backslash or control character in them). *)
Definition exn_str (e : exn) : string :=
  match e with
  | IndexError => "list index out of range"
  | KeyError k => "'" +:+ k +:+ "'"
  | AttributeError => "'NoneType' object has no attribute"
  | ValueError => "invalid literal for int() with base 10"
  end.

Inductive result (A : Type) :=
| Ok (a : A)
| Raise (e : exn).
Arguments Ok {A} a.
Arguments Raise {A} e.

(** JSON values, as [json.dumps] and [json.loads] exchange them.  An object
    is a finite map: the order of the members of a JSON object carries no
    meaning. *)
Inductive json :=
| JNull
| JBool (b : bool)
| JInt (z : Z)
| JFloat (f : float)
| JStr (s : string)
| JList (l : list json)
| JObj (o : gmap string json).

(** A response is the dict a handler returns. *)
Abbreviation response := (gmap string json).

(** Library functions of Python whose text is not part of the repository
    and whose exact values no property below depends on. *)
Class Builtins := {
  (** [int(hashlib.md5(s.encode()).hexdigest(), 16)] *)
  md5_int : string → N;
  (** [hashlib.md5(s.encode()).hexdigest()] *)
  md5_hexdigest : string → string;
  (** [sum(l)] on a list of floats *)
  float_sum : list float → float;
  (** [str(x)] of a float, as an f-string prints it *)
  float_str : float → string;
  (** [int(s)]: [None] stands for [ValueError] *)
  int_of_str : string → option Z
}.

(** ** Insertion-ordered dicts

    The inventory is iterated by [search_product], so the order of its keys
    is observable: an association list in insertion order, read at the
    first binding of a key. *)
Definition odict (V : Type) := list (string * V).

Fixpoint od_get {V} (k : string) (d : odict V) : option V :=
  match d with
  | [] => None
  | (k', v) :: d' => if decide (k = k') then Some v else od_get k d'
  end.

(** [k in d] *)
Definition od_mem {V} (k : string) (d : odict V) : bool :=
  match od_get k d with Some _ => true | None => false end.

(** [d[k] = v]: an existing key keeps its place, a new one goes last. *)
Fixpoint od_set {V} (k : string) (v : V) (d : odict V) : odict V :=
  match d with
  | [] => [(k, v)]
  | (k', v') :: d' =>
      if decide (k = k') then (k, v) :: d' else (k', v') :: od_set k v d'
  end.

(** ** LoadBalancer *)

Record LoadBalancer := mkLoadBalancer {
  current_algorithm : string;
  round_robin_index : nat;
  node_weights : gmap string float;
  (** a [defaultdict(int)]: a missing key reads as 0 *)
  node_connections : gmap string Z;
  (** a [defaultdict(list)]: a missing key reads as [[]] *)
  node_response_times : gmap string (list float);
  active_nodes : list string
}.

(** The keys of [self.algorithms]. *)
Definition algorithms : list string :=
  ["round_robin"; "weighted"; "least_connections"; "hash_based"]%string.

(** [LoadBalancer.__init__] *)
Definition LoadBalancer_init : LoadBalancer :=
  {| current_algorithm := "round_robin";
     round_robin_index := 0%nat;
     node_weights := ∅;
     node_connections := ∅;
     node_response_times := ∅;
     active_nodes := [] |}.

Definition set_node_weights (w : gmap string float) (lb : LoadBalancer) :=
  {| current_algorithm := current_algorithm lb;
     round_robin_index := round_robin_index lb;
     node_weights := w;
     node_connections := node_connections lb;
     node_response_times := node_response_times lb;
     active_nodes := active_nodes lb |}.

Definition set_node_connections (c : gmap string Z) (lb : LoadBalancer) :=
  {| current_algorithm := current_algorithm lb;
     round_robin_index := round_robin_index lb;
     node_weights := node_weights lb;
     node_connections := c;
     node_response_times := node_response_times lb;
     active_nodes := active_nodes lb |}.

Definition set_node_response_times (t : gmap string (list float))
    (lb : LoadBalancer) :=
  {| current_algorithm := current_algorithm lb;
     round_robin_index := round_robin_index lb;
     node_weights := node_weights lb;
     node_connections := node_connections lb;
     node_response_times := t;
     active_nodes := active_nodes lb |}.

Definition set_round_robin_index (i : nat) (lb : LoadBalancer) :=
  {| current_algorithm := current_algorithm lb;
     round_robin_index := i;
     node_weights := node_weights lb;
     node_connections := node_connections lb;
     node_response_times := node_response_times lb;
     active_nodes := active_nodes lb |}.

Definition set_active_list (l : list string) (lb : LoadBalancer) :=
  {| current_algorithm := current_algorithm lb;
     round_robin_index := round_robin_index lb;
     node_weights := node_weights lb;
     node_connections := node_connections lb;
     node_response_times := node_response_times lb;
     active_nodes := l |}.

(** [for node in nodes: if node not in self.node_weights: ... = 1.0] *)
Definition init_weights (nodes : list string) (w : gmap string float)
    : gmap string float :=
  foldl (λ w node, match w !! node with
                   | Some _ => w
                   | None => <[node := 1.0%float]> w
                   end) w nodes.

(** [set_active_nodes]: the cursor [round_robin_index] is not touched. *)
Definition set_active_nodes (nodes : list string) (lb : LoadBalancer)
    : LoadBalancer :=
  set_node_weights (init_weights nodes (node_weights lb))
    (set_active_list nodes lb).

(** [set_algorithm] *)
Definition set_algorithm (algorithm : string) (lb : LoadBalancer)
    : bool * LoadBalancer :=
  if decide (algorithm ∈ algorithms) then
    (true,
     {| current_algorithm := algorithm;
        round_robin_index := round_robin_index lb;
        node_weights := node_weights lb;
        node_connections := node_connections lb;
        node_response_times := node_response_times lb;
        active_nodes := active_nodes lb |})
  else (false, lb).

(** [round_robin]: [self.active_nodes[self.round_robin_index]] raises
    [IndexError] when the cursor is past the end of the list; the cursor
    then keeps its value. *)
Definition round_robin (lb : LoadBalancer)
    : result (option string) * LoadBalancer :=
  match active_nodes lb with
  | [] => (Ok None, lb)
  | _ :: _ =>
      match active_nodes lb !! round_robin_index lb with
      | None => (Raise IndexError, lb)
      | Some node =>
          (Ok (Some node),
           set_round_robin_index
             ((round_robin_index lb + 1) `mod` length (active_nodes lb))%nat
             lb)
      end
  end.

(** [self.node_weights.get(node, 1.0)] *)
Definition weight_of (lb : LoadBalancer) (node : string) : float :=
  default 1.0%float (node_weights lb !! node).

(** The loop of [weighted_round_robin]: the first node at which the
    running total reaches [rand_val]. *)
Fixpoint weighted_pick (lb : LoadBalancer) (rand_val cumulative : float)
    (nodes : list string) : option string :=
  match nodes with
  | [] => None
  | node :: rest =>
      let cumulative' := (cumulative + weight_of lb node)%float in
      if PrimFloat.leb rand_val cumulative' then Some node
      else weighted_pick lb rand_val cumulative' rest
  end.

Section LoadBalancerMethods.
Context {B : Builtins}.

(** [weighted_round_robin]; [r] is the draw [random.random()] inside
    [random.uniform(0, total_weight)], which is [0 + (total - 0) * r]. *)
Definition weighted_round_robin (r : float) (lb : LoadBalancer)
    : option string :=
  match active_nodes lb with
  | [] => None
  | first :: _ =>
      let total_weight := float_sum (weight_of lb <$> active_nodes lb) in
      let rand_val := (0 + (total_weight - 0) * r)%float in
      match weighted_pick lb rand_val 0%float (active_nodes lb) with
      | Some node => Some node
      | None => Some first
      end
  end.

(** [self.node_connections.get(node, 0)] *)
Definition connections_of (lb : LoadBalancer) (node : string) : Z :=
  default 0 (node_connections lb !! node).

(** [min(...)] over a non-empty list *)
Definition list_min (x : Z) (l : list Z) : Z := foldl Z.min x l.

(** [least_connections]; [k] is the index [random.choice] draws, read
    modulo the number of candidates. *)
Definition least_connections (k : nat) (lb : LoadBalancer)
    : option string :=
  match active_nodes lb with
  | [] => None
  | first :: rest =>
      let min_connections :=
        list_min (connections_of lb first) (connections_of lb <$> rest) in
      let candidates :=
        filter (λ node, connections_of lb node = min_connections)
               (active_nodes lb) in
      candidates !! (k `mod` length candidates)%nat
  end.

(** [not client_id]: [None] and the empty string are falsy. *)
Definition falsy (client_id : option string) : bool :=
  match client_id with
  | None => true
  | Some s => bool_decide (s = "")
  end.

(** [hash_based] *)
Definition hash_based (client_id : option string) (lb : LoadBalancer)
    : result (option string) * LoadBalancer :=
  if bool_decide (active_nodes lb = []) || falsy client_id then
    round_robin lb
  else
    let hash_val := md5_int (default "" client_id) in
    let node_index :=
      (N.to_nat hash_val `mod` length (active_nodes lb))%nat in
    match active_nodes lb !! node_index with
    | Some node => (Ok (Some node), lb)
    | None => (Raise IndexError, lb)
    end.

(** [get_next_node]: [r] and [k] are the random draws the weighted and
    the least-connections policies make. *)
Definition get_next_node (r : float) (k : nat) (client_id : option string)
    (lb : LoadBalancer) : result (option string) * LoadBalancer :=
  match active_nodes lb with
  | [] => (Ok None, lb)
  | _ :: _ =>
      if decide (current_algorithm lb = "round_robin") then round_robin lb
      else if decide (current_algorithm lb = "weighted") then
        (Ok (weighted_round_robin r lb), lb)
      else if decide (current_algorithm lb = "least_connections") then
        (Ok (least_connections k lb), lb)
      else if decide (current_algorithm lb = "hash_based") then
        hash_based client_id lb
      else (Raise (KeyError (current_algorithm lb)), lb)
  end.

(** [l[-n:]] for [n > 0] *)
Definition last_n {A} (n : nat) (l : list A) : list A :=
  drop (length l - n)%nat l.

(** [update_node_metrics].  The last statement, [self.node_weights[node]
    *= 0.9], reads a plain dict and raises [KeyError] on a node that has
    no weight yet; the response time is recorded by then. *)
Definition update_node_metrics (node : string) (response_time : float)
    (success : bool) (lb : LoadBalancer) : result unit * LoadBalancer :=
  let times := default [] (node_response_times lb !! node)
               ++ [response_time] in
  let times := if decide (10 < length times)%nat then last_n 10 times
               else times in
  let lb1 := set_node_response_times
               (<[node := times]> (node_response_times lb)) lb in
  let count := PrimFloat.of_uint63 (Uint63.of_Z (Z.of_nat (length times))) in
  let avg_response_time := (float_sum times / count)%float in
  let lb2 :=
    if PrimFloat.ltb 0 avg_response_time then
      set_node_weights
        (<[node := (1.0 / avg_response_time)%float]> (node_weights lb1)) lb1
    else lb1 in
  if success then (Ok (), lb2)
  else
    match node_weights lb2 !! node with
    | Some w =>
        (Ok (),
         set_node_weights (<[node := (w * 0.9)%float]> (node_weights lb2)) lb2)
    | None => (Raise (KeyError node), lb2)
    end.

(** [increment_connections] *)
Definition increment_connections (node : string) (lb : LoadBalancer)
    : LoadBalancer :=
  set_node_connections
    (<[node := connections_of lb node + 1]> (node_connections lb)) lb.

(** [decrement_connections]: the test reads the [defaultdict], which
    enters a missing node with count 0. *)
Definition decrement_connections (node : string) (lb : LoadBalancer)
    : LoadBalancer :=
  if decide (0 < connections_of lb node) then
    set_node_connections
      (<[node := connections_of lb node - 1]> (node_connections lb)) lb
  else
    set_node_connections
      (<[node := connections_of lb node]> (node_connections lb)) lb.

(** [get_stats] *)
Definition get_stats (lb : LoadBalancer) : response :=
  {[ "algorithm" := JStr (current_algorithm lb);
     "active_nodes" := JList (JStr <$> active_nodes lb);
     "node_weights" := JObj (JFloat <$> node_weights lb);
     "node_connections" := JObj (JInt <$> node_connections lb);
     "node_response_times" :=
       JObj ((λ v, JList (JFloat <$> last_n 5 v))
             <$> node_response_times lb) ]}.
End LoadBalancerMethods.

(** ** EnhancedMarketplaceNode: data *)

(** [{"shops": {shop: {product: quantity}}}] *)
Record area_data := mkArea { shops : odict (odict Z) }.

(** [{"areas": {area: area_data}}] *)
Record Inventory := mkInventory { areas : odict area_data }.

Record Transaction := mkTransaction {
  tx_type : string;
  tx_area : string;
  tx_shop : string;
  tx_product : string;
  tx_quantity : Z;
  tx_timestamp : string;
  transaction_id : string;
  tx_version : Z
}.

(** The messages [process_request] receives, by their ["type"] field.
    [Buy] carries [None] when the request has no ["quantity"] field. *)
Inductive request :=
| Search (product : string)
| Buy (area shop product : string) (quantity : option Z)
| AddStock (area shop product : string) (quantity : Z)
| GetStatus
| SyncRequest (full_state : Inventory) (new_transactions : list Transaction)
    (version : Z)
| Replicate (transaction : Transaction) (full_state : Inventory) (version : Z)
| LoadBalancerConfig (algorithm : string)
| LoadBalancerStats
| Heartbeat (timestamp : float) (version : Z) (primary_id : string)
    (load_balancer_stats : response)
| Unknown (type : string).

(** The background loops of a node. *)
Inductive thread :=
| T_heartbeat_sender
| T_backup_monitor
| T_load_balancer_monitor
| T_heartbeat_monitor
| T_performance_monitor.

(** What a method does to the outside: a thread it starts, a message it
    hands to a sender for the replica on [port].  [Send port m] records the
    message as it is at the hand-over; the text that reaches the wire is
    written later ([on_wire] below). *)
Inductive effect :=
| Spawn (t : thread)
| Send (port : Z) (m : request).

(** ** The wire

    The [json] module is a library: [json_dumps m] is the text
    [json.dumps(m).encode('utf-8')] of a message, and [json_loads data] is
    the message [json.loads(data)] gives, [None] when the bytes are not
    UTF-8, when [json.loads] raises, or when what it returns is not a dict
    (the assignment to [request['client_id']] raises then). *)
Class Json := {
  json_dumps : request → string;
  json_loads : string → option request
}.

(** What [handle_client] finds on its socket: the 5 seconds of the timeout
    pass with nothing to read (or the read ends with another socket error,
    which is logged in the same way), or [recv] returns with the bytes that
    have arrived by then, none of them if the peer closed the connection. *)
Inductive arrival :=
| RecvTimeout
| Arrived (bytes : string).

(** [sock.recv(bufsize)]: at most [bufsize] of the bytes that have
    arrived. *)
Definition recv (bufsize : nat) (bytes : string) : string :=
  String.substring 0 bufsize bytes.

(** The message a sender serialises.  The ["full_state"] of a message is
    the inventory dict of the node itself, not a copy, and [json.dumps]
    reads it when it runs: [live] is the content of that dict by then.
    The transaction, the slice of the log and the version are values of
    their own.  The messages without a ["full_state"] are taken as they
    are handed over. *)
Definition on_wire (message : request) (live : Inventory) : request :=
  match message with
  | Replicate transaction _ version => Replicate transaction live version
  | SyncRequest _ new_transactions version =>
      SyncRequest live new_transactions version
  | other => other
  end.

(** How one outbound call ends. *)
Inductive net_outcome :=
| NetTimeout                      (* [socket.timeout] *)
| NetError (msg : string)         (* any other exception, [msg = str(e)] *)
| NetReply (r : response).        (* the decoded reply *)

(** The readings of the environment during one request. *)
Record env := mkEnv {
  env_time : float;       (* [time.time()] in the handler *)
  env_iso : string;       (* [datetime.now().isoformat()] *)
  env_rand : float;       (* [random.random()] *)
  env_choice : nat;       (* the index [random.choice] draws *)
  env_t_start : float;    (* [time.time()] on entry of the forwarder *)
  env_t_done : float;     (* [time.time()] after the reply *)
  env_t_except : float;   (* [time.time()] in the [except] clause *)
  env_net : net_outcome   (* the outbound call of the request *)
}.

(** A metric of the node as Python holds it: the int [0] that [__init__]
    stores, or the float a later assignment stores. *)
Inductive metric :=
| MInt0
| MFloat (x : float).

(** The metric as [json.dumps] prints it: [0] or a float. *)
Definition metric_json (m : metric) : json :=
  match m with
  | MInt0 => JInt 0
  | MFloat x => JFloat x
  end.

Record Node := mkNode {
  node_id : string;
  port : Z;
  is_primary : bool;
  is_backup : bool;
  is_active : bool;
  inventory : Inventory;
  transaction_log : list Transaction;
  version_number : Z;
  last_heartbeat : float;
  load_balancer : option LoadBalancer;
  primary_port : option Z;
  backup_ports : list Z;
  primary_address : option (string * Z);
  request_count : Z;
  average_response_time : metric;
  cpu_usage : metric;
  memory_usage : metric
}.

Definition set_inventory (v : Inventory) (n : Node) : Node :=
  {| node_id := node_id n; port := port n; is_primary := is_primary n;
     is_backup := is_backup n; is_active := is_active n;
     inventory := v;
     transaction_log := transaction_log n;
     version_number := version_number n;
     last_heartbeat := last_heartbeat n; load_balancer := load_balancer n;
     primary_port := primary_port n; backup_ports := backup_ports n;
     primary_address := primary_address n; request_count := request_count n;
     average_response_time := average_response_time n;
     cpu_usage := cpu_usage n; memory_usage := memory_usage n |}.

Definition set_transaction_log (v : list Transaction) (n : Node) : Node :=
  {| node_id := node_id n; port := port n; is_primary := is_primary n;
     is_backup := is_backup n; is_active := is_active n;
     inventory := inventory n;
     transaction_log := v;
     version_number := version_number n;
     last_heartbeat := last_heartbeat n; load_balancer := load_balancer n;
     primary_port := primary_port n; backup_ports := backup_ports n;
     primary_address := primary_address n; request_count := request_count n;
     average_response_time := average_response_time n;
     cpu_usage := cpu_usage n; memory_usage := memory_usage n |}.

Definition set_version_number (v : Z) (n : Node) : Node :=
  {| node_id := node_id n; port := port n; is_primary := is_primary n;
     is_backup := is_backup n; is_active := is_active n;
     inventory := inventory n;
     transaction_log := transaction_log n;
     version_number := v;
     last_heartbeat := last_heartbeat n; load_balancer := load_balancer n;
     primary_port := primary_port n; backup_ports := backup_ports n;
     primary_address := primary_address n; request_count := request_count n;
     average_response_time := average_response_time n;
     cpu_usage := cpu_usage n; memory_usage := memory_usage n |}.

Definition set_last_heartbeat (v : float) (n : Node) : Node :=
  {| node_id := node_id n; port := port n; is_primary := is_primary n;
     is_backup := is_backup n; is_active := is_active n;
     inventory := inventory n;
     transaction_log := transaction_log n;
     version_number := version_number n;
     last_heartbeat := v; load_balancer := load_balancer n;
     primary_port := primary_port n; backup_ports := backup_ports n;
     primary_address := primary_address n; request_count := request_count n;
     average_response_time := average_response_time n;
     cpu_usage := cpu_usage n; memory_usage := memory_usage n |}.

Definition set_load_balancer (v : option LoadBalancer) (n : Node) : Node :=
  {| node_id := node_id n; port := port n; is_primary := is_primary n;
     is_backup := is_backup n; is_active := is_active n;
     inventory := inventory n;
     transaction_log := transaction_log n;
     version_number := version_number n;
     last_heartbeat := last_heartbeat n; load_balancer := v;
     primary_port := primary_port n; backup_ports := backup_ports n;
     primary_address := primary_address n; request_count := request_count n;
     average_response_time := average_response_time n;
     cpu_usage := cpu_usage n; memory_usage := memory_usage n |}.

(** The four assignments that open [initiate_failover]. *)
Definition set_role_primary (pp : option Z) (bp : list Z) (n : Node) : Node :=
  {| node_id := node_id n; port := port n; is_primary := true;
     is_backup := false; is_active := is_active n;
     inventory := inventory n;
     transaction_log := transaction_log n;
     version_number := version_number n;
     last_heartbeat := last_heartbeat n; load_balancer := load_balancer n;
     primary_port := pp; backup_ports := bp;
     primary_address := primary_address n; request_count := request_count n;
     average_response_time := average_response_time n;
     cpu_usage := cpu_usage n; memory_usage := memory_usage n |}.

Definition set_request_metrics (c : Z) (a : metric) (n : Node) : Node :=
  {| node_id := node_id n; port := port n; is_primary := is_primary n;
     is_backup := is_backup n; is_active := is_active n;
     inventory := inventory n;
     transaction_log := transaction_log n;
     version_number := version_number n;
     last_heartbeat := last_heartbeat n; load_balancer := load_balancer n;
     primary_port := primary_port n; backup_ports := backup_ports n;
     primary_address := primary_address n; request_count := c;
     average_response_time := a;
     cpu_usage := cpu_usage n; memory_usage := memory_usage n |}.

Definition set_usage (c m : metric) (n : Node) : Node :=
  {| node_id := node_id n; port := port n; is_primary := is_primary n;
     is_backup := is_backup n; is_active := is_active n;
     inventory := inventory n;
     transaction_log := transaction_log n;
     version_number := version_number n;
     last_heartbeat := last_heartbeat n; load_balancer := load_balancer n;
     primary_port := primary_port n; backup_ports := backup_ports n;
     primary_address := primary_address n; request_count := request_count n;
     average_response_time := average_response_time n;
     cpu_usage := c; memory_usage := m |}.

Definition set_is_active (b : bool) (n : Node) : Node :=
  {| node_id := node_id n; port := port n; is_primary := is_primary n;
     is_backup := is_backup n; is_active := b;
     inventory := inventory n;
     transaction_log := transaction_log n;
     version_number := version_number n;
     last_heartbeat := last_heartbeat n; load_balancer := load_balancer n;
     primary_port := primary_port n; backup_ports := backup_ports n;
     primary_address := primary_address n; request_count := request_count n;
     average_response_time := average_response_time n;
     cpu_usage := cpu_usage n; memory_usage := memory_usage n |}.

(** [load_initial_data] *)
Definition load_initial_data : Inventory :=
  let shop (l : list (string * Z)) : odict Z := l in
  mkInventory
    [("borivali", mkArea
        [("Fresh_Mart",
          shop [("apple", 50); ("banana", 30); ("milk", 25); ("bread", 20)]);
         ("Daily_Needs",
          shop [("rice", 100); ("oil", 20); ("sugar", 40); ("salt", 15)])]);
     ("andheri", mkArea
        [("Tech_Store",
          shop [("laptop", 5); ("phone", 10); ("charger", 50);
                ("headphones", 25)]);
         ("Food_Corner",
          shop [("pizza", 15); ("burger", 20); ("fries", 25); ("coke", 30)])]);
     ("goregaon", mkArea
        [("Veggie_World",
          shop [("tomato", 60); ("potato", 80); ("onion", 45); ("carrot", 35)]);
         ("Bakery_House",
          shop [("bread", 40); ("cake", 8); ("cookies", 30); ("pastry", 12)])]);
     ("bhayandar", mkArea
        [("Farm_Fresh",
          shop [("mango", 25); ("apple", 30); ("banana", 40); ("grapes", 20)]);
         ("Kitchen_Needs",
          shop [("spices", 50); ("salt", 25); ("sugar", 35);
                ("flour", 45)])])]%string.

(** [EnhancedMarketplaceNode.__init__]; [now] is the reading of the clock.
    A primary starts with a load balancer whose active list is empty. *)
Definition Node_init (id : string) (p : Z) (primary : bool) (now : float)
    : Node :=
  {| node_id := id; port := p; is_primary := primary;
     is_backup := negb primary; is_active := true;
     inventory := load_initial_data;
     transaction_log := [];
     version_number := 0;
     last_heartbeat := now;
     load_balancer :=
       if primary then Some (set_active_nodes [] LoadBalancer_init) else None;
     primary_port := if primary then Some 8000 else None;
     backup_ports := if primary then [8001; 8002] else [];
     primary_address := if primary then None else Some ("localhost"%string, 8000);
     request_count := 0;
     average_response_time := MInt0;
     cpu_usage := MInt0; memory_usage := MInt0 |}.

(** The quantity stored under (area, shop, product), if the key exists. *)
Definition stock (inv : Inventory) (area shop product : string) : option Z :=
  ad ← od_get area (areas inv);
  items ← od_get shop (shops ad);
  od_get product items.

(** [self.inventory['areas'][area]['shops'][shop][product] = q], which
    creates nothing: the three levels exist when it is used. *)
Definition store (inv : Inventory) (area shop product : string) (q : Z)
    : Inventory :=
  match od_get area (areas inv) with
  | None => inv
  | Some ad =>
      match od_get shop (shops ad) with
      | None => inv
      | Some items =>
          mkInventory
            (od_set area
               (mkArea (od_set shop (od_set product q items) (shops ad)))
               (areas inv))
      end
  end.

(** [s.split(c)] *)
Fixpoint split_on (c : ascii) (s : string) : list string :=
  match s with
  | EmptyString => [EmptyString]
  | String a s' =>
      if decide (a = c) then EmptyString :: split_on c s'
      else match split_on c s' with
           | h :: t => String a h :: t
           | [] => [String a EmptyString]
           end
  end.

(** [l.remove(x)] for an [x] that is in [l]: the first occurrence goes. *)
Fixpoint remove_first (x : string) (l : list string) : list string :=
  match l with
  | [] => []
  | y :: l' => if decide (x = y) then l' else y :: remove_first x l'
  end.

(** [response.get('status') == 'success'] *)
Definition status_is_success (r : response) : bool :=
  match r !! "status" with
  | Some (JStr s) => bool_decide (s = "success")
  | _ => false
  end.

(** [f"backup-{port}"] *)
Definition backup_name (p : Z) : string := "backup-" +:+ pretty p.

(** ** EnhancedMarketplaceNode: methods *)

Section NodeMethods.
Context {B : Builtins}.

(** [search_product]; [iso] is the timestamp. *)
Definition search_product (iso : string) (product : string) (n : Node)
    : response :=
  let results :=
    '(area, ad) ← areas (inventory n);
    '(shop, items) ← shops ad;
    match od_get product items with
    | Some q =>
        if decide (0 < q) then
          [JObj {[ "area" := JStr area; "shop" := JStr shop;
                   "quantity" := JInt q; "node" := JStr (node_id n) ]}]
        else []
    | None => []
    end in
  {[ "status" := JStr "success";
     "product" := JStr product;
     "results" := JList results;
     "timestamp" := JStr iso;
     "version" := JInt (version_number n);
     "served_by" := JStr (node_id n) ]}.

(** [generate_transaction_id] *)
Definition generate_transaction_id (now : float) (n : Node) : string :=
  String.substring 0 16
    (md5_hexdigest
       (node_id n +:+ "_" +:+ float_str now +:+ "_"
        +:+ pretty (version_number n))).

(** [forward_to_primary]: every failure of the call gives the same
    error response. *)
Definition forward_to_primary (e : env) : response :=
  match env_net e with
  | NetReply r => r
  | _ => {[ "status" := JStr "error";
            "message" := JStr "Primary node unavailable" ]}
  end.

(** [replicate_to_backups]: one sender thread per backup port, each with
    the same message.  The message is recorded with the inventory the node
    holds at the call; the threads run [send_to_backup] later. *)
Definition replicate_to_backups (transaction : Transaction) (n : Node)
    : list effect :=
  (λ p, Send p (Replicate transaction (inventory n) (version_number n)))
    <$> backup_ports n.

(** [not self.is_primary and self.primary_address]: writes on such a
    node go to the primary. *)
Definition forwards_writes (n : Node) : bool :=
  negb (is_primary n) && bool_decide (is_Some (primary_address n)).

(** [buy_product].  The [except] clause of the source is not reachable on
    typed arguments: every dict access is guarded by the [in] tests. *)
Definition buy_product (e : env) (area shop product : string)
    (quantity : Z) (n : Node) : response * Node * list effect :=
  if forwards_writes n then (forward_to_primary e, n, [])
  else
    match stock (inventory n) area shop product with
    | Some current_qty =>
        if decide (quantity ≤ current_qty) then
          let transaction :=
            {| tx_type := "buy"; tx_area := area; tx_shop := shop;
               tx_product := product; tx_quantity := quantity;
               tx_timestamp := env_iso e;
               transaction_id := generate_transaction_id (env_time e) n;
               tx_version := version_number n + 1 |} in
          let n1 := set_inventory
                      (store (inventory n) area shop product
                         (current_qty - quantity)) n in
          let n2 := set_version_number (version_number n1 + 1) n1 in
          let n3 := set_transaction_log
                      (transaction_log n2 ++ [transaction]) n2 in
          let sends :=
            if is_primary n3 then replicate_to_backups transaction n3
            else [] in
          ({[ "status" := JStr "success";
              "message" := JStr ("Purchased " +:+ pretty quantity +:+ " "
                                 +:+ product +:+ " from " +:+ shop);
              "transaction_id" := JStr (transaction_id transaction);
              "remaining_quantity" :=
                match stock (inventory n3) area shop product with
                | Some q => JInt q
                | None => JNull
                end;
              "version" := JInt (version_number n3);
              "processed_by" := JStr (node_id n3) ]},
           n3, sends)
        else
          ({[ "status" := JStr "error";
              "message" :=
                JStr ("Insufficient quantity. Available: "
                      +:+ pretty current_qty +:+ ", Requested: "
                      +:+ pretty quantity) ]},
           n, [])
    | None =>
        ({[ "status" := JStr "error";
            "message" := JStr ("Product " +:+ product +:+ " not found in "
                               +:+ shop +:+ ", " +:+ area) ]},
         n, [])
    end.

(** The inventory after the three creation steps and the update of
    [add_stock]. *)
Definition add_to_inventory (inv : Inventory) (area shop product : string)
    (quantity : Z) : Inventory :=
  let areas1 :=
    if od_mem area (areas inv) then areas inv
    else od_set area (mkArea []) (areas inv) in
  let ad := default (mkArea []) (od_get area areas1) in
  let shops1 :=
    if od_mem shop (shops ad) then shops ad
    else od_set shop [] (shops ad) in
  let items := default [] (od_get shop shops1) in
  let q := match od_get product items with
           | Some current => current + quantity
           | None => quantity
           end in
  mkInventory
    (od_set area (mkArea (od_set shop (od_set product q items) shops1))
       areas1).

(** [add_stock]; on an integer quantity no statement of it raises. *)
Definition add_stock (e : env) (area shop product : string)
    (quantity : Z) (n : Node) : response * Node * list effect :=
  if forwards_writes n then (forward_to_primary e, n, [])
  else
    let n1 := set_inventory
                (add_to_inventory (inventory n) area shop product quantity)
                n in
    let n2 := set_version_number (version_number n1 + 1) n1 in
    let transaction :=
      {| tx_type := "add_stock"; tx_area := area; tx_shop := shop;
         tx_product := product; tx_quantity := quantity;
         tx_timestamp := env_iso e;
         transaction_id := generate_transaction_id (env_time e) n2;
         tx_version := version_number n2 |} in
    let n3 := set_transaction_log (transaction_log n2 ++ [transaction]) n2 in
    let sends :=
      if is_primary n3 then replicate_to_backups transaction n3 else [] in
    ({[ "status" := JStr "success";
        "message" := JStr ("Added " +:+ pretty quantity +:+ " " +:+ product
                           +:+ " to " +:+ shop);
        "new_quantity" :=
          match stock (inventory n3) area shop product with
          | Some q => JInt q
          | None => JNull
          end;
        "version" := JInt (version_number n3);
        "processed_by" := JStr (node_id n3) ]},
     n3, sends).

(** [handle_replication]: the pushed state and version are installed as
    they come; the version held is not consulted. *)
Definition handle_replication (transaction : Transaction)
    (full_state : Inventory) (new_version : Z) (n : Node)
    : response * Node :=
  if is_primary n then
    ({[ "status" := JStr "error";
        "message" := JStr "Primary cannot receive replication" ]}, n)
  else
    let n1 := set_inventory full_state n in
    let n2 := set_version_number new_version n1 in
    let n3 := set_transaction_log (transaction_log n2 ++ [transaction]) n2 in
    ({[ "status" := JStr "success";
        "version" := JInt (version_number n3) ]}, n3).

(** [handle_sync_request]: no test of the role and none of the version;
    the log keeps its last 100 entries. *)
Definition handle_sync_request (now : float) (full_state : Inventory)
    (new_transactions : list Transaction) (version : Z) (n : Node)
    : response * Node :=
  let n1 := set_inventory full_state n in
  let n2 := set_version_number version n1 in
  let n3 := set_transaction_log
              (last_n 100 (transaction_log n2 ++ new_transactions)) n2 in
  let n4 := set_last_heartbeat now n3 in
  ({[ "status" := JStr "success";
      "version" := JInt (version_number n4) ]}, n4).

(** [configure_load_balancer] *)
Definition configure_load_balancer (algorithm : string) (n : Node)
    : response * Node :=
  match is_primary n, load_balancer n with
  | true, Some lb =>
      let available := JList (JStr <$> algorithms) in
      match set_algorithm algorithm lb with
      | (true, lb') =>
          ({[ "status" := JStr "success";
              "message" := JStr ("Load balancing algorithm set to "
                                 +:+ algorithm);
              "available_algorithms" := available ]},
           set_load_balancer (Some lb') n)
      | (false, lb') =>
          ({[ "status" := JStr "error";
              "message" := JStr ("Invalid algorithm: " +:+ algorithm);
              "available_algorithms" := available ]},
           set_load_balancer (Some lb') n)
      end
  | _, _ =>
      ({[ "status" := JStr "error";
          "message" := JStr "Load balancer not available" ]}, n)
  end.

(** [get_load_balancer_stats] *)
Definition get_load_balancer_stats (n : Node) : response :=
  match is_primary n, load_balancer n with
  | true, Some lb => <["status" := JStr "success"]> (get_stats lb)
  | _, _ => {[ "status" := JStr "error";
               "message" := JStr "Load balancer not available" ]}
  end.

(** [get_node_status] *)
Definition get_node_status (now : float) (n : Node) : response :=
  let status : response :=
    {[ "status" := JStr "success";
       "node_id" := JStr (node_id n);
       "port" := JInt (port n);
       "is_primary" := JBool (is_primary n);
       "version" := JInt (version_number n);
       "transaction_count" := JInt (Z.of_nat (length (transaction_log n)));
       "last_heartbeat" := JFloat (last_heartbeat n);
       "timestamp" := JFloat now;
       "request_count" := JInt (request_count n);
       "average_response_time" := metric_json (average_response_time n);
       "cpu_usage" := metric_json (cpu_usage n);
       "memory_usage" := metric_json (memory_usage n) ]} in
  match is_primary n, load_balancer n with
  | true, Some lb => <["load_balancer" := JObj (get_stats lb)]> status
  | _, _ => status
  end.

(** The local answer both [except] clauses of [forward_read_request]
    fall back to. *)
Definition fallback_response (e : env) (product reason : string)
    (n : Node) : response :=
  <["fallback_reason" := JStr reason]>
    (<["load_balanced" := JBool false]>
       (search_product (env_iso e) product n)).

(** The clause [except Exception as e] of [forward_read_request], entered
    with the load balancer [lb] and [reason = str(e)].  An exception
    raised inside it leaves the method. *)
Definition on_forward_error (e : env) (target : string)
    (product reason : string) (lb : LoadBalancer) (n : Node)
    : result response * LoadBalancer :=
  let response_time := (env_t_except e - env_t_start e)%float in
  match update_node_metrics target response_time false lb with
  | (Ok _, lb') => (Ok (fallback_response e product reason n), lb')
  | (Raise ex, lb') => (Raise ex, lb')
  end.

(** The [try] block of [forward_read_request] with its two [except]
    clauses, after the connection count went up. *)
Definition forward_attempt (e : env) (target : string) (product : string)
    (lb : LoadBalancer) (n : Node) : result response * LoadBalancer :=
  match env_net e with
  | NetReply r =>
      let response_time := (env_t_done e - env_t_start e)%float in
      let success := status_is_success r in
      match update_node_metrics target response_time success lb with
      | (Ok _, lb') =>
          (Ok (<["response_time" := JFloat response_time]>
                 (<["served_by" := JStr target]>
                    (<["load_balanced" := JBool true]> r))),
           lb')
      | (Raise ex, lb') =>
          on_forward_error e target product (exn_str ex) lb' n
      end
  | NetTimeout =>
      let lb' :=
        if decide (target ∈ active_nodes lb) then
          set_active_list (remove_first target (active_nodes lb)) lb
        else lb in
      (Ok (fallback_response e product "backup_timeout" n), lb')
  | NetError msg => on_forward_error e target product msg lb n
  end.

(** [forward_read_request] for a search of [product]: the [finally]
    clause runs on every path out of the [try] statement. *)
Definition forward_read_request (e : env) (target_port : Z)
    (product : string) (n : Node) : result response * Node :=
  let target := backup_name target_port in
  match load_balancer n with
  | None => (Raise AttributeError, n)
  | Some lb =>
      let lb1 := increment_connections target lb in
      let '(r, lb2) := forward_attempt e target product lb1 n in
      let lb3 := decrement_connections target lb2 in
      (r, set_load_balancer (Some lb3) n)
  end.

(** [handle_load_balanced_read].  The selection is made outside the
    [try]; the [try] catches [ValueError] and [IndexError] only. *)
Definition handle_load_balanced_read (e : env) (client_id : option string)
    (product : string) (n : Node) : result response * Node :=
  match load_balancer n with
  | None => (Raise AttributeError, n)
  | Some lb =>
      match get_next_node (env_rand e) (env_choice e) client_id lb with
      | (Raise ex, lb') => (Raise ex, set_load_balancer (Some lb') n)
      | (Ok selected_node, lb') =>
          let n1 := set_load_balancer (Some lb') n in
          let locally (m : Node) :=
            (Ok (search_product (env_iso e) product m), m) in
          if falsy selected_node then locally n1
          else
            match split_on "-" (default "" selected_node) !! 1%nat with
            | None => locally n1
            | Some digits =>
                match int_of_str digits with
                | None => locally n1
                | Some target_port =>
                    match forward_read_request e target_port product n1 with
                    | (Raise ValueError, n2) => locally n2
                    | (Raise IndexError, n2) => locally n2
                    | other => other
                    end
                end
            end
      end
  end.

(** [process_request]; [client_id] is the field [handle_client] adds. *)
Definition process_request (e : env) (client_id : option string)
    (req : request) (n : Node) : result response * Node * list effect :=
  let plain (x : response * Node) := (Ok x.1, x.2, []) in
  let write (x : response * Node * list effect) :=
    (Ok x.1.1, x.1.2, x.2) in
  match req with
  | Search product =>
      if is_primary n && bool_decide (is_Some (load_balancer n)) then
        let '(r, n') := handle_load_balanced_read e client_id product n in
        (r, n', [])
      else (Ok (search_product (env_iso e) product n), n, [])
  | Buy area shop product quantity =>
      write (buy_product e area shop product (default 1 quantity) n)
  | AddStock area shop product quantity =>
      write (add_stock e area shop product quantity n)
  | GetStatus => (Ok (get_node_status (env_time e) n), n, [])
  | SyncRequest full_state new_transactions version =>
      plain (handle_sync_request (env_time e) full_state new_transactions
               version n)
  | Replicate transaction full_state version =>
      plain (handle_replication transaction full_state version n)
  | LoadBalancerConfig algorithm =>
      plain (configure_load_balancer algorithm n)
  | LoadBalancerStats => (Ok (get_load_balancer_stats n), n, [])
  | Heartbeat _ _ _ _ | Unknown _ =>
      (Ok {[ "status" := JStr "error";
             "message" := JStr "Invalid request type" ]}, n, [])
  end.
End NodeMethods.

(** ** Role transition and background loops *)

Inductive NodeRole := Primary | Backup.

Definition role (n : Node) : NodeRole :=
  if is_primary n then Primary else Backup.

(** How the status probe of [backup_monitor] ends: an exception before the
    reply is decoded, or a status whose ["version"] field may be absent. *)
Inductive probe_outcome :=
| ProbeFail
| ProbeStatus (version : option Z).

Section NodeLoops.
Context {B : Builtins} {J : Json}.

(** [initiate_failover] *)
Definition initiate_failover (n : Node) : Node * list effect :=
  let n1 := set_role_primary (Some (port n))
              (filter (λ p, p ≠ port n) [8001; 8002]) n in
  let backup_nodes := backup_name <$> backup_ports n1 in
  let n2 := set_load_balancer
              (Some (set_active_nodes backup_nodes LoadBalancer_init)) n1 in
  (n2, [Spawn T_heartbeat_sender; Spawn T_backup_monitor;
        Spawn T_load_balancer_monitor]).

(** One turn of the loop of [heartbeat_monitor]; [now] is the clock.  The
    loop runs while the node is active and not primary, and ends with the
    fail-over. *)
Definition heartbeat_monitor (now : float) (n : Node) : Node * list effect :=
  if is_active n && negb (is_primary n) then
    if PrimFloat.ltb 10 (now - last_heartbeat n) then initiate_failover n
    else (n, [])
  else (n, []).

(** One turn of [heartbeat_sender]; [reach p] tells whether the connect
    and the send to port [p] went through. *)
Definition heartbeat_sender (now : float) (reach : Z → bool) (n : Node)
    : Node * list effect :=
  if is_active n && is_primary n then
    let heartbeat_message :=
      Heartbeat now (version_number n) (node_id n)
        (match load_balancer n with
         | Some lb => get_stats lb
         | None => ∅
         end) in
    let reached := filter (λ p, reach p = true) (backup_ports n) in
    let active_backups := backup_name <$> reached in
    (set_load_balancer (set_active_nodes active_backups <$> load_balancer n) n,
     (λ p, Send p heartbeat_message) <$> reached)
  else (n, []).

(** The message of [sync_backup]. *)
Definition sync_backup (backup_port : Z) (n : Node) : effect :=
  Send backup_port
    (SyncRequest (inventory n) (last_n 50 (transaction_log n))
       (version_number n)).

(** The body of the [for] loop of [backup_monitor] for one port: the node
    identifier to add to the active list, and the sync to send. *)
Definition probe_backup (probe : Z → probe_outcome) (n : Node)
    (backup_port : Z) : list string * list effect :=
  match probe backup_port with
  | ProbeFail => ([], [])
  | ProbeStatus v =>
      ([backup_name backup_port],
       if decide (default 0 v < version_number n)
       then [sync_backup backup_port n] else [])
  end.

(** One turn of [backup_monitor]. *)
Definition backup_monitor (probe : Z → probe_outcome) (n : Node)
    : Node * list effect :=
  if is_active n && is_primary n then
    let probes := probe_backup probe n <$> backup_ports n in
    let active := mjoin (fst <$> probes) in
    (set_load_balancer (set_active_nodes active <$> load_balancer n) n,
     mjoin (snd <$> probes))
  else (n, []).

(** One turn of [load_balancer_monitor]: with more than one active node
    and response-time windows (cut to their last five entries by
    [get_stats]) of different lengths, round robin gives way to the
    weighted policy. *)
Definition load_balancer_monitor (n : Node) : Node :=
  match load_balancer n with
  | Some lb =>
      if is_active n && is_primary n then
        let lengths : gset nat :=
          list_to_set
            ((λ kv, length (last_n 5 kv.2))
             <$> map_to_list (node_response_times lb)) in
        if bool_decide (1 < length (active_nodes lb))%nat
           && bool_decide (1 < size lengths)%nat
           && bool_decide (current_algorithm lb = "round_robin")
        then set_load_balancer (Some (set_algorithm "weighted" lb).2) n
        else n
      else n
  | None => n
  end.

(** One turn of [performance_monitor]; [r1] and [r2] are the draws of the
    two calls of [random.uniform]. *)
Definition performance_monitor (r1 r2 : float) (n : Node) : Node :=
  if is_active n && negb (is_primary n) then
    set_usage (MFloat (10 + (90 - 10) * r1)%float)
      (MFloat (20 + (80 - 20) * r2)%float) n
  else n.

(** [update_metrics]: the first sample, and any sample that finds the
    average equal to 0, replaces the average; the others enter it with the
    factor 0.1. *)
Definition update_metrics (response_time : float) (success : bool)
    (n : Node) : Node :=
  set_request_metrics (request_count n + 1)
    (match average_response_time n with
     | MInt0 => MFloat response_time
     | MFloat average =>
         if PrimFloat.eqb average 0 then MFloat response_time
         else MFloat (0.1 * response_time + (1 - 0.1) * average)%float
     end)
    n.

(** The statements of [handle_client] from the decoded request on, for a
    client at [client_address]; [t0] and [t1] are the clock on entry and
    after the request is processed.  [Some r] is the response handed to
    [send].  An exception of [process_request] is logged and the client
    gets no answer: the result is [None]. *)
Definition handle_request (client_address : string * Z) (t0 t1 : float)
    (e : env) (req : request) (n : Node)
    : option response * Node * list effect :=
  let client_id := client_address.1 +:+ ":" +:+ pretty client_address.2 in
  match process_request e (Some client_id) req n with
  | (Ok r, n', out) =>
      (Some r, update_metrics (t1 - t0)%float (status_is_success r) n', out)
  | (Raise _, n', out) => (None, n', out)
  end.

(** [handle_client]: one [recv] of at most 2048 bytes, and no second read.
    Nothing is processed and nothing is answered when the read times out,
    when it returns no data, and when the data does not decode: the
    [except] clauses only log. *)
Definition handle_client (client_address : string * Z) (t0 t1 : float)
    (e : env) (conn : arrival) (n : Node)
    : option response * Node * list effect :=
  match conn with
  | RecvTimeout => (None, n, [])
  | Arrived bytes =>
      let data := recv 2048 bytes in
      if decide (data = "") then (None, n, [])
      else
        match json_loads data with
        | Some req => handle_request client_address t0 t1 e req n
        | None => (None, n, [])
        end
  end.

(** [send_to_backup], the thread [replicate_to_backups] starts for one
    port: the port and the bytes it sends.  It serialises the message when
    it gets to run, outside [data_lock]; the reply is only logged. *)
Definition send_to_backup (backup_port : Z) (message : request)
    (live : Inventory) : Z * string :=
  (backup_port, json_dumps (on_wire message live)).

(** [shutdown] *)
Definition shutdown (n : Node) : Node := set_is_active false n.

(** The threads [start_server] starts. *)
Definition start_server (n : Node) : list effect :=
  if is_primary n then
    [Spawn T_heartbeat_sender; Spawn T_backup_monitor;
     Spawn T_load_balancer_monitor]
  else [Spawn T_heartbeat_monitor; Spawn T_performance_monitor].

(** *** The node as a transition system

    One event is one request served or one turn of a background loop,
    with the readings of the environment it makes.  A [ClientRequest] is a
    connection whose data decoded to [req]; a connection that times out or
    whose data is empty or does not decode leaves the node as it is, and
    is no event. *)
Inductive event :=
| ClientRequest (client_address : string * Z) (t0 t1 : float) (e : env)
    (req : request)
| HeartbeatMonitorTurn (now : float)
| HeartbeatSenderTurn (now : float) (reach : Z → bool)
| BackupMonitorTurn (probe : Z → probe_outcome)
| LoadBalancerMonitorTurn
| PerformanceMonitorTurn (r1 r2 : float)
| Shutdown.

Definition step (ev : event) (n : Node) : Node :=
  match ev with
  | ClientRequest a t0 t1 e req => (handle_request a t0 t1 e req n).1.2
  | HeartbeatMonitorTurn now => (heartbeat_monitor now n).1
  | HeartbeatSenderTurn now reach => (heartbeat_sender now reach n).1
  | BackupMonitorTurn probe => (backup_monitor probe n).1
  | LoadBalancerMonitorTurn => load_balancer_monitor n
  | PerformanceMonitorTurn r1 r2 => performance_monitor r1 r2 n
  | Shutdown => shutdown n
  end.

(** The states a run goes through, the first one included. *)
Fixpoint states (evs : list event) (n : Node) : list Node :=
  match evs with
  | [] => [n]
  | ev :: evs' => n :: states evs' (step ev n)
  end.

Definition run (evs : list event) (n : Node) : Node :=
  foldl (λ n ev, step ev n) n evs.

(** The number of places of a list of roles where the role changes, and
    the number of places where it changes from primary to backup. *)
Fixpoint role_changes (rs : list NodeRole) : nat :=
  match rs with
  | Backup :: ((Primary :: _) as rs') => S (role_changes rs')
  | Primary :: ((Backup :: _) as rs') => S (role_changes rs')
  | _ :: rs' => role_changes rs'
  | [] => 0%nat
  end.

Fixpoint demotions (rs : list NodeRole) : nat :=
  match rs with
  | Primary :: ((Backup :: _) as rs') => S (demotions rs')
  | _ :: rs' => demotions rs'
  | [] => 0%nat
  end.
End NodeLoops.

(** ** Running the model

    [round_robin_calls m lb]: the results of [m] successive calls of
    [round_robin], and the load balancer they leave. *)
Fixpoint round_robin_calls (m : nat) (lb : LoadBalancer)
    : list (result (option string)) * LoadBalancer :=
  match m with
  | O => ([], lb)
  | S m' =>
      let '(r, lb1) := round_robin lb in
      let '(rs, lb2) := round_robin_calls m' lb1 in
      (r :: rs, lb2)
  end.

(** The node a call selected, if it selected one. *)
Definition selected (r : result (option string)) : option string :=
  match r with
  | Ok o => o
  | Raise _ => None
  end.

(** How many of the calls [rs] selected [x]. *)
Definition times_selected (x : string) (rs : list (result (option string)))
    : nat :=
  length (filter (λ y, y = x) (omap selected rs)).

(** The calls a test makes on the connection counts. *)
Inductive conn_call :=
| Increment (node : string)
| Decrement (node : string).

Definition conn_step (lb : LoadBalancer) (c : conn_call) : LoadBalancer :=
  match c with
  | Increment node => increment_connections node lb
  | Decrement node => decrement_connections node lb
  end.

(** [int(s)] on a plain decimal numeral with an optional sign. *)
Definition digit_value (a : ascii) : option Z :=
  let c := Z.of_N (N_of_ascii a) in
  if decide (48 ≤ c ≤ 57) then Some (c - 48) else None.

Fixpoint parse_digits (acc : Z) (s : string) : option Z :=
  match s with
  | EmptyString => Some acc
  | String a s' => d ← digit_value a; parse_digits (10 * acc + d) s'
  end.

Definition decimal (s : string) : option Z :=
  match s with
  | EmptyString => None
  | String "-" (String _ _ as s') => Z.opp <$> parse_digits 0 s'
  | String "+" (String _ _ as s') => parse_digits 0 s'
  | String "-" EmptyString | String "+" EmptyString => None
  | _ => parse_digits 0 s
  end.

(** An instance of [Builtins] to run the model on examples.  Its hash is
    the sum of the character codes and not MD5, its sum adds from the left,
    its numerals are plain decimal ones; every theorem below is proved for
    all instances. *)
Definition example_builtins : Builtins :=
  {| md5_int s := N.of_nat (foldr (λ a acc, nat_of_ascii a + acc)%nat 0%nat
                              (list_ascii_of_string s));
     md5_hexdigest s := "00000000000000000000000000000000";
     float_sum l := foldl PrimFloat.add 0%float l;
     float_str x := "0.0";
     int_of_str := decimal |}.

(** A local mutation of the store, as a client asks for it. *)
Inductive mutation :=
| MBuy (area shop product : string) (quantity : Z)
| MAddStock (area shop product : string) (quantity : Z).

Section Mutations.
Context {B : Builtins}.

Definition apply_mutation (em : env * mutation) (n : Node) : response * Node :=
  match em.2 with
  | MBuy area shop product quantity =>
      (buy_product em.1 area shop product quantity n).1
  | MAddStock area shop product quantity =>
      (add_stock em.1 area shop product quantity n).1
  end.

(** For each mutation of a sequence: whether it succeeded, the version
    before it and the version after it; and the node the sequence leaves. *)
Fixpoint mutation_log (ms : list (env * mutation)) (n : Node)
    : list (bool * Z * Z) * Node :=
  match ms with
  | [] => ([], n)
  | m :: ms' =>
      let '(r, n1) := apply_mutation m n in
      let '(l, n2) := mutation_log ms' n1 in
      ((status_is_success r, version_number n, version_number n1) :: l, n2)
  end.

(** The number of mutations of a log that succeeded. *)
Definition committed (l : list (bool * Z * Z)) : nat :=
  length (filter (λ x, x.1.1 = true) l).
End Mutations.

(** ** Invariants of the load balancer

    Every active node has a weight. *)
Definition weights_cover (lb : LoadBalancer) : Prop :=
  ∀ x, x ∈ active_nodes lb → is_Some (node_weights lb !! x).

Definition node_weights_cover (n : Node) : Prop :=
  ∀ lb, load_balancer n = Some lb → weights_cover lb.

(** [lb'] has no more active nodes and no fewer weights than [lb]. *)
Definition lb_shrinks (lb lb' : LoadBalancer) : Prop :=
  active_nodes lb' ⊆ active_nodes lb ∧
  ∀ x, is_Some (node_weights lb !! x) → is_Some (node_weights lb' !! x).


(** ** Concrete nodes and readings for the examples *)

Definition demo_env (net : net_outcome) : env :=
  {| env_time := 100%float; env_iso := "2024-01-01T00:00:00";
     env_rand := 0.5%float; env_choice := 0%nat;
     env_t_start := 100%float; env_t_done := 100.25%float;
     env_t_except := 100.5%float; env_net := net |}.

Definition demo_primary : Node := Node_init "node1" 8000 true 0%float.
Definition demo_backup : Node := Node_init "node2" 8001 false 0%float.

Definition demo_transaction (v : Z) : Transaction :=
  {| tx_type := "buy"; tx_area := "borivali"; tx_shop := "Fresh_Mart";
     tx_product := "apple"; tx_quantity := 1;
     tx_timestamp := "2024-01-01T00:00:00";
     transaction_id := "0000000000000000"; tx_version := v |}.

(** A backup that has applied the replication of version 5. *)
Definition demo_backup_v5 : Node :=
  (handle_replication (demo_transaction 5)
     (store load_initial_data "borivali" "Fresh_Mart" "apple" 45) 5
     demo_backup).2.

(** The load balancer of a primary whose heartbeat reached both backups. *)
Definition demo_balancer : LoadBalancer :=
  set_active_nodes ["backup-8001"; "backup-8002"]%string
    (set_active_nodes [] LoadBalancer_init).

Definition demo_primary_two : Node :=
  (heartbeat_sender 1%float (λ _, true) demo_primary).1.

(** The primary of the scenario of the specification: one key
    (A, S, p) with quantity 10. *)
Definition scenario_primary : Node :=
  set_inventory (mkInventory [("A", mkArea [("S", [("p", 10)])])]%string)
    demo_primary.

(** A run of a backup: a quiet turn of the heartbeat monitor, a
    replication, the turn that times out (20 seconds after the last
    heartbeat), then a replication, a sync, two monitor turns and the
    shutdown. *)
Definition demo_run : list event :=
  let client := ("127.0.0.1"%string, 5000) in
  let e := demo_env NetTimeout in
  [ HeartbeatMonitorTurn 5%float;
    ClientRequest client 6%float 6.5%float e
      (Replicate (demo_transaction 1) load_initial_data 1);
    HeartbeatMonitorTurn 20%float;
    ClientRequest client 21%float 21.5%float e
      (Replicate (demo_transaction 2) load_initial_data 2);
    ClientRequest client 22%float 22.5%float e
      (SyncRequest load_initial_data [] 0);
    HeartbeatMonitorTurn 50%float;
    BackupMonitorTurn (λ _, ProbeFail);
    Shutdown ].

(** A primary that served one search through backup-8001 and whose next
    heartbeat reached the backup on port 8001 only. *)
Definition demo_primary_shrunk : Node :=
  let served :=
    (handle_request (B := example_builtins) ("127.0.0.1"%string, 5000)
       2%float 2.5%float
       (demo_env (NetReply {[ "status" := JStr "success" ]}))
       (Search "apple") demo_primary_two).1.2 in
  (heartbeat_sender 4%float (λ p, bool_decide (p = 8001)) served).1.

(** ** Further invariants *)

(** No quantity of the inventory is negative. *)
Definition inventory_nonneg (inv : Inventory) : Prop :=
  ∀ area shop product q, stock inv area shop product = Some q → 0 ≤ q.

(** The keys of every dict of the inventory are distinct, as the keys of
    a Python dict are. *)
Definition inventory_wf (inv : Inventory) : Prop :=
  NoDup (areas inv).*1 ∧
  ∀ area ad, (area, ad) ∈ areas inv → NoDup (shops ad).*1.

(** All the quantities of the inventory, in its order. *)
Definition quantities (inv : Inventory) : list Z :=
  '(_, ad) ← areas inv; '(_, items) ← shops ad; snd <$> items.

(** The log records the versions 1, 2, ..., up to the version held. *)
Definition log_consistent (n : Node) : Prop :=
  0 ≤ version_number n ∧
  tx_version <$> transaction_log n
  = Z.of_nat <$> seq 1 (Z.to_nat (version_number n)).

(** The algorithm of the load balancer is one of the four it knows. *)
Definition algorithm_known (n : Node) : Prop :=
  ∀ lb, load_balancer n = Some lb → current_algorithm lb ∈ algorithms.

(** The turns of the background loops, as opposed to the requests. *)
Definition background (ev : event) : bool :=
  match ev with
  | ClientRequest _ _ _ _ _ => false
  | _ => true
  end.

(** The requests that are not a sync. *)
Definition is_sync (req : request) : bool :=
  match req with
  | SyncRequest _ _ _ => true
  | _ => false
  end.

Definition client_request_not_sync (ev : event) : bool :=
  match ev with
  | ClientRequest _ _ _ _ req => negb (is_sync req)
  | _ => false
  end.

(** The primary after one buy of four apples: version 1. *)
Definition demo_primary_v1 : Node :=
  (buy_product (B := example_builtins) (demo_env NetTimeout)
     "borivali" "Fresh_Mart" "apple" 4 demo_primary).1.2.

(** Three heartbeat messages of the primary, as a backup receives them. *)
Definition demo_heartbeats : list event :=
  (λ t, ClientRequest ("127.0.0.1"%string, 5000) t t (demo_env NetTimeout)
          (Heartbeat t 0 "node1" ∅))
  <$> [3%float; 6%float; 9%float].

(** ** The wire on examples *)

(** No proper prefix of the document [text] decodes: [json.loads] raises
    on a JSON object that is cut short. *)
Definition no_prefix_decodes {J : Json} (text : string) : Prop :=
  ∀ s, String.prefix s text = true → s ≠ text → json_loads s = None.

(** The text of [json.dumps] with its default separators, for names that
    have no character to escape. *)
Definition write_string (s : string) : string :=
  String "034" (s +:+ String "034" "").

Definition write_members {V} (w : V → string) (d : list (string * V))
    : string :=
  "{"
  +:+ String.concat ", " ((λ kv, write_string kv.1 +:+ ": " +:+ w kv.2) <$> d)
  +:+ "}".

Definition write_list {V} (w : V → string) (l : list V) : string :=
  "[" +:+ String.concat ", " (w <$> l) +:+ "]".

Definition write_inventory (inv : Inventory) : string :=
  write_members
    (write_members
       (λ ad : area_data,
          write_members (write_members (write_members pretty))
            [("shops"%string, shops ad)]))
    [("areas"%string, areas inv)].

Definition write_transaction (tx : Transaction) : string :=
  write_members id
    [("type", write_string (tx_type tx));
     ("area", write_string (tx_area tx));
     ("shop", write_string (tx_shop tx));
     ("product", write_string (tx_product tx));
     ("quantity", pretty (tx_quantity tx));
     ("timestamp", write_string (tx_timestamp tx));
     ("transaction_id", write_string (transaction_id tx));
     ("version", pretty (tx_version tx))]%string.

(** The text of a message.  A float is printed as 0.0 and the statistics
    of a heartbeat as the empty object: the examples do not read them. *)
Definition write_request (m : request) : string :=
  let type (t : string) := ("type"%string, write_string t) in
  let key (area shop product : string) :=
    [("area", write_string area); ("shop", write_string shop);
     ("product", write_string product)]%string in
  write_members id
    match m with
    | Search product => [type "search"; ("product", write_string product)]
    | Buy area shop product quantity =>
        type "buy" :: key area shop product
        ++ match quantity with
           | Some q => [("quantity", pretty q)]
           | None => []
           end
    | AddStock area shop product quantity =>
        type "add_stock" :: key area shop product
        ++ [("quantity", pretty quantity)]
    | GetStatus => [type "get_status"]
    | SyncRequest full_state new_transactions version =>
        [type "sync_request";
         ("full_state", write_inventory full_state);
         ("transaction_log", write_list write_transaction new_transactions);
         ("version", pretty version)]
    | Replicate transaction full_state version =>
        [type "replicate";
         ("transaction", write_transaction transaction);
         ("full_state", write_inventory full_state);
         ("version", pretty version)]
    | LoadBalancerConfig algorithm =>
        [type "load_balancer_config"; ("algorithm", write_string algorithm)]
    | LoadBalancerStats => [type "load_balancer_stats"]
    | Heartbeat timestamp version primary_id _ =>
        [type "heartbeat"; ("timestamp", "0.0"); ("version", pretty version);
         ("primary_id", write_string primary_id);
         ("load_balancer_stats", "{}")]
    | Unknown t => [type t]
    end%string.

(** The primary after a second buy, of one apple: version 2. *)
Definition demo_primary_v2 : Node :=
  (buy_product (B := example_builtins) (demo_env NetTimeout)
     "borivali" "Fresh_Mart" "apple" 1 demo_primary_v1).1.2.

(** The primary after eight buys of one apple: version 8, eight entries in
    its log. *)
Definition demo_primary_v8 : Node :=
  (mutation_log (B := example_builtins)
     (replicate 8 (demo_env NetTimeout,
                   MBuy "borivali" "Fresh_Mart" "apple" 1))
     demo_primary).2.

(** The sync_request [sync_backup] builds on a node. *)
Definition sync_message (n : Node) : request :=
  SyncRequest (inventory n) (last_n 50 (transaction_log n)) (version_number n).

(** The replication of version 1, as the primary hands it over after its
    first buy, and as its text reads when the sender serialises it after
    the second buy. *)
Definition demo_replicate : request :=
  Replicate (demo_transaction 1) (inventory demo_primary_v1) 1.

Definition demo_replicate_late : request :=
  on_wire demo_replicate (inventory demo_primary_v2).

(** An instance of [Json] to run the model on examples: the writer prints
    the text of a message, the reader knows the texts of the messages of
    the examples and raises on every other text.  Every theorem below is
    proved for all instances. *)
Definition demo_messages : list request :=
  [GetStatus; Search "apple"; sync_message demo_primary_v1;
   demo_replicate; demo_replicate_late].

Definition example_json : Json :=
  {| json_dumps := write_request;
     json_loads data :=
       List.find (λ m, String.eqb (write_request m) data) demo_messages |}.

(** * Properties *)

(** ** The model on small inputs *)

Example split_on_node_name :
  split_on "-" "backup-8001" = ["backup"; "8001"]%string ∧
  split_on "-" "backup" = ["backup"]%string ∧
  split_on "-" "" = [""]%string ∧
  split_on "-" "a--b" = ["a"; ""; "b"]%string.
Proof. repeat split. Qed.

Example backup_name_8001 :
  backup_name 8001 = "backup-8001"%string ∧
  decimal "8001" = Some 8001 ∧ decimal "" = None ∧ decimal "80a1" = None.
Proof. repeat split. Qed.

Example last_n_slices :
  last_n 2 [1; 2; 3] = [2; 3] ∧ last_n 5 [1; 2; 3] = [1; 2; 3].
Proof. split; reflexivity. Qed.

(** A search for apples on the initial data finds the two shops that have
    them, in the order of the inventory. *)
Example search_apple :
  search_product "t" "apple" demo_primary !! "results"
  = Some (JList
      [JObj {[ "area" := JStr "borivali"; "shop" := JStr "Fresh_Mart";
               "quantity" := JInt 50; "node" := JStr "node1" ]};
       JObj {[ "area" := JStr "bhayandar"; "shop" := JStr "Farm_Fresh";
               "quantity" := JInt 30; "node" := JStr "node1" ]}]).
Proof. vm_compute. reflexivity. Qed.

(** Adding stock creates the area, the shop and the product that are
    missing, at the end of the dicts, and adds to a product that exists. *)
Example add_to_inventory_creates :
  stock (add_to_inventory load_initial_data "dadar" "Corner" "tea" 7)
    "dadar" "Corner" "tea" = Some 7 ∧
  stock (add_to_inventory load_initial_data "borivali" "Fresh_Mart" "apple" 5)
    "borivali" "Fresh_Mart" "apple" = Some 55 ∧
  fst <$> last (areas (add_to_inventory load_initial_data "dadar" "Corner"
                         "tea" 7))
  = Some "dadar"%string.
Proof. repeat split. Qed.

(** A primary starts with an empty active set; its first heartbeat that
    reaches both backups makes both active. *)
Example primary_active_sets :
  active_nodes <$> load_balancer demo_primary = Some [] ∧
  load_balancer demo_primary_two = Some demo_balancer ∧
  active_nodes demo_balancer = ["backup-8001"; "backup-8002"]%string.
Proof. repeat split. Qed.

(** ** Ordered dicts and the inventory *)

Lemma od_get_set_eq {V} (k : string) (v : V) (d : odict V) :
  od_get k (od_set k v d) = Some v.
Proof.
  induction d as [|[k' v'] d IH]; simpl.
  - by rewrite decide_True.
  - destruct (decide (k = k')) as [->|Hne]; simpl.
    + by rewrite decide_True.
    + by rewrite decide_False.
Qed.

Lemma od_get_set_ne {V} (k k' : string) (v : V) (d : odict V) :
  k ≠ k' → od_get k' (od_set k v d) = od_get k' d.
Proof.
  intros Hne. induction d as [|[k0 v0] d IH]; simpl.
  - by rewrite decide_False.
  - destruct (decide (k = k0)) as [->|Hne0]; simpl.
    + by rewrite !decide_False by done.
    + destruct (decide (k' = k0)); [done | apply IH].
Qed.

(** Writing a quantity under an existing key and reading it back. *)
Lemma stock_store (inv : Inventory) (area shop product : string) (c q : Z) :
  stock inv area shop product = Some c →
  stock (store inv area shop product q) area shop product = Some q.
Proof.
  unfold stock, store. intros H.
  destruct (od_get area (areas inv)) as [ad|]; [|done]. simpl in H.
  destruct (od_get shop (shops ad)) as [items|]; [|done]. simpl.
  rewrite od_get_set_eq. simpl. rewrite od_get_set_eq. simpl.
  by rewrite od_get_set_eq.
Qed.

(** ** Round robin *)

Lemma round_robin_in_range (lb : LoadBalancer) :
  (round_robin_index lb < length (active_nodes lb))%nat →
  ∃ node,
    active_nodes lb !! round_robin_index lb = Some node ∧
    round_robin lb =
      (Ok (Some node),
       set_round_robin_index
         ((round_robin_index lb + 1) `mod` length (active_nodes lb))%nat lb).
Proof.
  intros Hlt. destruct (lookup_lt_is_Some_2 _ _ Hlt) as [node Hnode].
  exists node. split; [done|]. unfold round_robin. rewrite Hnode.
  destruct (active_nodes lb); [simpl in Hlt; lia | done].
Qed.

(** X1: with the cursor inside the active list a call of [round_robin]
    cannot fail, it returns a member of the active set, and the cursor
    stays inside the list. *)
Lemma round_robin_member (lb : LoadBalancer) :
  (round_robin_index lb < length (active_nodes lb))%nat →
  ∃ node lb',
    round_robin lb = (Ok (Some node), lb') ∧
    node ∈ active_nodes lb ∧
    active_nodes lb' = active_nodes lb ∧
    (round_robin_index lb' < length (active_nodes lb'))%nat.
Proof.
  intros Hlt. destruct (round_robin_in_range lb Hlt) as (node & Hnode & ->).
  exists node. eexists. split; [done|].
  split; [by eapply list_elem_of_lookup_2|]. split; [done|].
  simpl. apply Nat.mod_upper_bound. lia.
Qed.

(** With a cursor past the end of a non-empty list the call raises. *)
Lemma round_robin_past_end (lb : LoadBalancer) :
  active_nodes lb ≠ [] →
  (length (active_nodes lb) ≤ round_robin_index lb)%nat →
  round_robin lb = (Raise IndexError, lb).
Proof.
  intros Hne Hge. unfold round_robin.
  rewrite (lookup_ge_None_2 _ _ Hge). by destruct (active_nodes lb).
Qed.

Lemma set_round_robin_index_same (lb : LoadBalancer) :
  set_round_robin_index (round_robin_index lb) lb = lb.
Proof. by destruct lb. Qed.

Lemma round_robin_calls_app (a b : nat) (lb : LoadBalancer) :
  round_robin_calls (a + b) lb =
    let '(r1, lb1) := round_robin_calls a lb in
    let '(r2, lb2) := round_robin_calls b lb1 in
    (r1 ++ r2, lb2).
Proof.
  revert lb. induction a as [|a IH]; intros lb; simpl.
  - by destruct (round_robin_calls b lb).
  - destruct (round_robin lb) as [r lb1]. rewrite IH.
    destruct (round_robin_calls a lb1) as [r1 lb2].
    by destruct (round_robin_calls b lb2).
Qed.

(** [j] calls that do not run past the end of the list select the [j]
    nodes from the cursor on, in the order of the list. *)
Lemma round_robin_calls_segment (j : nat) (lb : LoadBalancer) :
  (round_robin_index lb + j ≤ length (active_nodes lb))%nat →
  (round_robin_index lb < length (active_nodes lb))%nat →
  round_robin_calls j lb =
    ((λ x, Ok (Some x))
       <$> take j (drop (round_robin_index lb) (active_nodes lb)),
     set_round_robin_index
       ((round_robin_index lb + j) `mod` length (active_nodes lb))%nat lb).
Proof.
  revert lb. induction j as [|j IH]; intros lb Hle Hpos.
  - simpl. rewrite Nat.add_0_r, Nat.mod_small by lia.
    by rewrite set_round_robin_index_same.
  - destruct (round_robin_in_range lb) as (node & Hnode & Hrr); [lia|].
    cbn [round_robin_calls]. rewrite Hrr.
    set (lb1 := set_round_robin_index _ lb).
    assert (active_nodes lb1 = active_nodes lb) as Hact by done.
    destruct (decide (round_robin_index lb + 1 < length (active_nodes lb))%nat)
      as [Hlt|Hge].
    + assert (round_robin_index lb1 = round_robin_index lb + 1)%nat as Hidx.
      { subst lb1. simpl. by rewrite Nat.mod_small. }
      rewrite IH by (rewrite ?Hact, ?Hidx; lia).
      rewrite Hact, Hidx. f_equal.
      * rewrite (drop_S _ node _ Hnode). simpl. by rewrite Nat.add_1_r.
      * subst lb1. unfold set_round_robin_index; simpl.
        by replace (round_robin_index lb + 1 + j)%nat
            with (round_robin_index lb + S j)%nat by lia.
    + assert (j = 0)%nat as -> by lia.
      simpl. rewrite (drop_S _ node _ Hnode). simpl.
      done.
Qed.

(** A full turn: as many calls as there are active nodes select every
    position of the list once, from the cursor on and around, and bring the
    cursor back. *)
Lemma round_robin_calls_turn (lb : LoadBalancer) :
  (round_robin_index lb < length (active_nodes lb))%nat →
  round_robin_calls (length (active_nodes lb)) lb =
    ((λ x, Ok (Some x)) <$>
       (drop (round_robin_index lb) (active_nodes lb)
        ++ take (round_robin_index lb) (active_nodes lb)),
     lb).
Proof.
  intros Hlt.
  set (i := round_robin_index lb). set (l := active_nodes lb).
  replace (length l) with ((length l - i) + i)%nat at 1 by (subst i l; lia).
  rewrite round_robin_calls_app.
  rewrite round_robin_calls_segment by (subst i l; lia).
  fold i l. replace (i + (length l - i))%nat with (length l) by (subst i l; lia).
  rewrite Nat.Div0.mod_same.
  set (lb0 := set_round_robin_index 0 lb).
  assert (active_nodes lb0 = l) as Hact by done.
  assert (round_robin_index lb0 = 0%nat) as Hidx by done.
  rewrite round_robin_calls_segment by (rewrite ?Hact, ?Hidx; subst i l; lia).
  rewrite Hact, Hidx. simpl. rewrite Nat.mod_small by (subst i l; lia).
  rewrite fmap_app. f_equal.
  - f_equal. rewrite take_ge; [done|]. rewrite length_drop. lia.
  - subst lb0 i. by destruct lb.
Qed.

Lemma times_selected_app (x : string) (r1 r2 : list (result (option string))) :
  times_selected x (r1 ++ r2) = (times_selected x r1 + times_selected x r2)%nat.
Proof.
  unfold times_selected. by rewrite omap_app, filter_app, length_app.
Qed.

Lemma omap_selected_ok (l : list string) :
  omap selected ((λ y, Ok (Some y)) <$> l) = l.
Proof.
  induction l as [|y l IH]; [done|].
  rewrite fmap_cons. cbn [omap list_omap selected].
  fold (omap selected ((λ y, Ok (Some y)) <$> l)). by rewrite IH.
Qed.

Lemma times_selected_ok (x : string) (l : list string) :
  times_selected x ((λ y, Ok (Some y)) <$> l) = length (filter (λ y, y = x) l).
Proof. unfold times_selected. by rewrite omap_selected_ok. Qed.

Lemma count_rotation (x : string) (i : nat) (l : list string) :
  length (filter (λ y, y = x) (drop i l ++ take i l))
  = length (filter (λ y, y = x) l).
Proof.
  rewrite filter_app, length_app, Nat.add_comm, <- length_app, <- filter_app.
  by rewrite take_drop.
Qed.

Lemma count_absent (x : string) (l : list string) :
  x ∉ l → length (filter (λ y, y = x) l) = 0%nat.
Proof.
  induction l as [|y l IH]; intros Hx; [done|].
  apply not_elem_of_cons in Hx as [Hne Hx].
  rewrite filter_cons. destruct (decide (y = x)); [congruence | by apply IH].
Qed.

Lemma count_NoDup (x : string) (l : list string) :
  NoDup l → x ∈ l → length (filter (λ y, y = x) l) = 1%nat.
Proof.
  induction 1 as [|y l Hy Hnd IH]; intros Hin; [by apply elem_of_nil in Hin|].
  rewrite filter_cons. destruct (decide (y = x)) as [->|Hne].
  - simpl. by rewrite count_absent.
  - apply IH. apply elem_of_cons in Hin as [->|Hin]; [done | done].
Qed.

(** [k] full turns leave the load balancer as it was, select members of
    the active set only, and select every node [k] times for each of its
    places in the list. *)
Lemma round_robin_calls_turns (k : nat) (lb : LoadBalancer) (x : string) :
  (round_robin_index lb < length (active_nodes lb))%nat →
  (round_robin_calls (k * length (active_nodes lb)) lb).2 = lb ∧
  Forall (λ r, ∃ node, r = Ok (Some node) ∧ node ∈ active_nodes lb)
    (round_robin_calls (k * length (active_nodes lb)) lb).1 ∧
  times_selected x (round_robin_calls (k * length (active_nodes lb)) lb).1
  = (k * length (filter (λ y, y = x) (active_nodes lb)))%nat.
Proof.
  intros Hlt. induction k as [|k (IH1 & IH2 & IH3)]; [done|].
  replace (S k * length (active_nodes lb))%nat
    with (length (active_nodes lb) + k * length (active_nodes lb))%nat by lia.
  rewrite round_robin_calls_app, round_robin_calls_turn by done.
  destruct (round_robin_calls (k * length (active_nodes lb)) lb) as [rs lb'].
  simpl in *. subst lb'. split; [done|]. split.
  - apply Forall_app. split; [|done].
    apply Forall_fmap, Forall_forall. intros node Hin. exists node.
    split; [done|]. apply elem_of_app in Hin as [Hin|Hin].
    + by apply (subseteq_drop (round_robin_index lb)).
    + by apply (subseteq_take (round_robin_index lb)).
  - rewrite times_selected_app, times_selected_ok, count_rotation, IH3. lia.
Qed.

(** X2: coverage.  With an unchanged active set of [N] distinct nodes and
    a cursor inside it, [M = k * N] calls select each node [k = M / N]
    times. *)
Lemma round_robin_coverage (k : nat) (lb : LoadBalancer) (x : string) :
  (round_robin_index lb < length (active_nodes lb))%nat →
  NoDup (active_nodes lb) →
  x ∈ active_nodes lb →
  times_selected x (round_robin_calls (k * length (active_nodes lb)) lb).1 = k.
Proof.
  intros Hlt Hnd Hin.
  destruct (round_robin_calls_turns k lb x Hlt) as (_ & _ & ->).
  rewrite count_NoDup by done. lia.
Qed.

(** The cursor of a fresh load balancer is inside every non-empty active
    set it is given, and stays inside while the set does not change. *)
Lemma round_robin_fresh (nodes : list string) :
  nodes ≠ [] →
  let lb := set_active_nodes nodes LoadBalancer_init in
  (round_robin_index lb < length (active_nodes lb))%nat.
Proof. intros Hne. simpl. destruct nodes; [done | simpl; lia]. Qed.

(** The scenario of the specification: with active nodes B1 and B2, six
    calls in a row select B1, B2, B1, B2, B1, B2. *)
Example round_robin_six_calls :
  (round_robin_calls 6
     (set_active_nodes ["B1"; "B2"]%string LoadBalancer_init)).1
  = (λ x, Ok (Some x)) <$> ["B1"; "B2"; "B1"; "B2"; "B1"; "B2"]%string.
Proof. reflexivity. Qed.

(** C5: the call of [round_robin] is not safe once the active set has
    shrunk.  After one call on two nodes the cursor is 1; when the next
    health check leaves one active node, the cursor is past the end of the
    list, it is not clamped, and the next call raises [IndexError] in place
    of returning the one active node. *)
Theorem round_robin_raises_after_shrink :
  let lb0 := set_active_nodes ["backup-8001"; "backup-8002"]%string
               LoadBalancer_init in
  let lb1 := (round_robin lb0).2 in
  let lb2 := set_active_nodes ["backup-8001"]%string lb1 in
  (round_robin lb0).1 = Ok (Some "backup-8001"%string) ∧
  active_nodes lb2 = ["backup-8001"]%string ∧
  round_robin_index lb2 = 1%nat ∧
  round_robin lb2 = (Raise IndexError, lb2).
Proof. repeat split. Qed.

(** ** Hash-based selection and connection counts *)

Section LoadBalancerFacts.
Context {B : Builtins}.

(** C7: two calls of [hash_based] with the same non-empty client id and
    the same active-node list return the same node, the one at index
    [hash(client id) mod |active nodes|], whatever else differs in the load
    balancer, and leave the load balancer as it is; without a client id
    (absent or empty) the call is the call of [round_robin]. *)
Theorem hash_based_session_affinity (cid : string) (lb1 lb2 : LoadBalancer) :
  cid ≠ ""%string →
  active_nodes lb1 ≠ [] →
  active_nodes lb2 = active_nodes lb1 →
  (∃ node,
     active_nodes lb1
       !! (N.to_nat (md5_int cid) `mod` length (active_nodes lb1))%nat
     = Some node ∧
     hash_based (Some cid) lb1 = (Ok (Some node), lb1) ∧
     hash_based (Some cid) lb2 = (Ok (Some node), lb2)) ∧
  hash_based None lb1 = round_robin lb1 ∧
  hash_based (Some ""%string) lb1 = round_robin lb1.
Proof.
  intros Hcid Hne Heq. split.
  - assert (N.to_nat (md5_int cid) `mod` length (active_nodes lb1)
            < length (active_nodes lb1))%nat as Hlt.
    { apply Nat.mod_upper_bound. by destruct (active_nodes lb1). }
    destruct (lookup_lt_is_Some_2 _ _ Hlt) as [node Hnode].
    exists node. split; [done|].
    unfold hash_based. rewrite Heq. simpl.
    rewrite !bool_decide_eq_false_2 by done. simpl. by rewrite Hnode.
  - split; unfold hash_based; simpl.
    + by rewrite orb_true_r.
    + by rewrite orb_true_r.
Qed.

Lemma connections_of_increment (node x : string) (lb : LoadBalancer) :
  connections_of (increment_connections node lb) x
  = if decide (node = x) then connections_of lb x + 1 else connections_of lb x.
Proof.
  unfold increment_connections, connections_of. simpl.
  rewrite lookup_insert. by destruct (decide (node = x)) as [->|].
Qed.

Lemma connections_of_decrement (node x : string) (lb : LoadBalancer) :
  connections_of (decrement_connections node lb) x
  = if decide (node = x)
    then (if decide (0 < connections_of lb x) then connections_of lb x - 1
          else connections_of lb x)
    else connections_of lb x.
Proof.
  unfold decrement_connections.
  destruct (decide (node = x)) as [->|Hne].
  - destruct (decide (0 < connections_of lb x));
      unfold connections_of; simpl; by rewrite lookup_insert_eq.
  - destruct (decide (0 < connections_of lb node));
      unfold connections_of; simpl; by rewrite lookup_insert_ne.
Qed.

Lemma decrement_connections_active (node : string) (lb : LoadBalancer) :
  active_nodes (decrement_connections node lb) = active_nodes lb.
Proof. unfold decrement_connections. by case_decide. Qed.

Lemma conn_step_nonneg (lb : LoadBalancer) (c : conn_call) :
  (∀ x, 0 ≤ connections_of lb x) → ∀ x, 0 ≤ connections_of (conn_step lb c) x.
Proof.
  intros Hinv x. destruct c as [node|node]; simpl.
  - rewrite connections_of_increment. specialize (Hinv x).
    destruct (decide (node = x)); lia.
  - rewrite connections_of_decrement. specialize (Hinv x).
    destruct (decide (node = x)); [|done].
    destruct (decide (0 < connections_of lb x)); lia.
Qed.

Lemma conn_calls_nonneg (calls : list conn_call) (lb : LoadBalancer) :
  (∀ x, 0 ≤ connections_of lb x) →
  ∀ x, 0 ≤ connections_of (foldl conn_step lb calls) x.
Proof.
  revert lb. induction calls as [|c calls IH]; intros lb Hinv; [done|].
  simpl. apply IH. by apply conn_step_nonneg.
Qed.

(** The metrics of a node touch neither the connection counts nor the
    active list. *)
Lemma update_node_metrics_connections (node : string) (t : float) (ok : bool)
    (lb : LoadBalancer) :
  node_connections (update_node_metrics node t ok lb).2 = node_connections lb ∧
  active_nodes (update_node_metrics node t ok lb).2 = active_nodes lb.
Proof.
  unfold update_node_metrics.
  repeat (case_match; simpl; try done).
Qed.

(** A failure is recorded without an exception for a node that has a
    weight. *)
Lemma update_node_metrics_failure (node : string) (t : float)
    (lb : LoadBalancer) :
  is_Some (node_weights lb !! node) →
  (update_node_metrics node t false lb).1 = Ok ().
Proof.
  intros [w Hw]. unfold update_node_metrics. cbv zeta.
  destruct (PrimFloat.ltb _ _); simpl.
  - by rewrite lookup_insert_eq.
  - by rewrite Hw.
Qed.

(** The attempt between the increment and the decrement leaves the
    connection counts alone, however the call ends. *)
Lemma forward_attempt_connections (e : env) (target product : string)
    (lb : LoadBalancer) (n : Node) :
  node_connections (forward_attempt e target product lb n).2
  = node_connections lb.
Proof.
  unfold forward_attempt, on_forward_error.
  destruct (env_net e) as [|msg|r].
  - by case_decide.
  - pose proof (update_node_metrics_connections target
                  (env_t_except e - env_t_start e) false lb) as [H _].
    by destruct (update_node_metrics _ _ false lb) as [[[]|ex] lb'].
  - pose proof (update_node_metrics_connections target
                  (env_t_done e - env_t_start e) (status_is_success r) lb)
      as [H _].
    destruct (update_node_metrics _ _ (status_is_success r) lb)
      as [[[]|ex] lb']; [done|]. simpl in H.
    pose proof (update_node_metrics_connections target
                  (env_t_except e - env_t_start e) false lb') as [H' _].
    destruct (update_node_metrics _ _ false lb') as [[[]|ex'] lb'']; simpl in *;
      congruence.
Qed.

(** C8: after any sequence of [increment_connections] and
    [decrement_connections] calls, on a fresh load balancer or on one whose
    counts are non-negative, every count is non-negative; and a forwarded
    read is its attempt between one increment and one decrement of the
    count of the target: the attempt runs with the count one higher, does
    not change any count itself, and on every outcome of the call (reply,
    timeout, error, exception) every count is afterwards what it was
    before. *)
Theorem connection_counts_bracketed (calls : list conn_call) (e : env)
    (target_port : Z) (product : string) (n : Node) (lb : LoadBalancer) :
  load_balancer n = Some lb →
  (∀ x, 0 ≤ connections_of lb x) →
  let target := backup_name target_port in
  let attempt :=
    forward_attempt e target product (increment_connections target lb) n in
  (∀ x, 0 ≤ connections_of (foldl conn_step LoadBalancer_init calls) x) ∧
  (∀ x, 0 ≤ connections_of (foldl conn_step lb calls) x) ∧
  forward_read_request e target_port product n
    = (attempt.1,
       set_load_balancer (Some (decrement_connections target attempt.2)) n) ∧
  connections_of attempt.2 target = connections_of lb target + 1 ∧
  (∀ x, x ≠ target → connections_of attempt.2 x = connections_of lb x) ∧
  ∃ lb', load_balancer (forward_read_request e target_port product n).2
           = Some lb' ∧
         ∀ x, connections_of lb' x = connections_of lb x.
Proof.
  intros Hlb Hinv target attempt.
  assert (node_connections attempt.2
          = node_connections (increment_connections target lb)) as Hmid
    by apply forward_attempt_connections.
  assert (∀ x, connections_of attempt.2 x
               = connections_of (increment_connections target lb) x) as Hc.
  { intros x. unfold connections_of. by rewrite Hmid. }
  split; [by apply conn_calls_nonneg|].
  split; [by apply conn_calls_nonneg|].
  assert (forward_read_request e target_port product n
          = (attempt.1,
             set_load_balancer
               (Some (decrement_connections target attempt.2)) n)) as Hfwd.
  { unfold forward_read_request. rewrite Hlb. fold target. fold attempt.
    by destruct attempt. }
  split; [done|].
  split; [rewrite Hc, connections_of_increment; by rewrite decide_True|].
  split.
  { intros x Hx. rewrite Hc, connections_of_increment.
    by rewrite decide_False. }
  rewrite Hfwd. simpl. eexists. split; [done|].
  intros x. rewrite connections_of_decrement, !Hc, !connections_of_increment.
  specialize (Hinv x). destruct (decide (target = x)); [|done].
  rewrite decide_True by lia. lia.
Qed.
End LoadBalancerFacts.

Lemma hash_based_session_affinity_witness :
  let lb1 := demo_balancer in
  let lb2 := (round_robin demo_balancer).2 in
  "127.0.0.1:5000"%string ≠ ""%string ∧
  active_nodes lb1 ≠ [] ∧
  active_nodes lb2 = active_nodes lb1 ∧
  round_robin_index lb2 ≠ round_robin_index lb1 ∧
  (hash_based (B := example_builtins) (Some "127.0.0.1:5000"%string) lb1).1
  = (hash_based (B := example_builtins) (Some "127.0.0.1:5000"%string) lb2).1.
Proof.
  intros lb1 lb2.
  assert ("127.0.0.1:5000"%string ≠ ""%string) as H1 by discriminate.
  assert (active_nodes lb1 ≠ []) as H2 by discriminate.
  assert (active_nodes lb2 = active_nodes lb1) as H3 by reflexivity.
  repeat (split; [done|]).
  destruct (hash_based_session_affinity (B := example_builtins)
              "127.0.0.1:5000" lb1 lb2 H1 H2 H3) as [(node & _ & -> & ->) _].
  reflexivity.
Defined.

Lemma connection_counts_bracketed_witness :
  load_balancer demo_primary_two = Some demo_balancer ∧
  (∀ x, 0 ≤ connections_of demo_balancer x) ∧
  ∃ lb', load_balancer
           (forward_read_request (B := example_builtins)
              (demo_env NetTimeout) 8001 "apple" demo_primary_two).2
         = Some lb' ∧
         ∀ x, connections_of lb' x = connections_of demo_balancer x.
Proof.
  assert (load_balancer demo_primary_two = Some demo_balancer) as H1
    by reflexivity.
  assert (∀ x, 0 ≤ connections_of demo_balancer x) as H2.
  { intros x. unfold connections_of. simpl. by rewrite lookup_empty. }
  split; [exact H1|]. split; [exact H2|].
  exact (proj2 (proj2 (proj2 (proj2 (proj2
           (connection_counts_bracketed (B := example_builtins) []
              (demo_env NetTimeout) 8001 "apple" demo_primary_two
              demo_balancer H1 H2)))))).
Defined.

(** ** The versioned store *)

Section StoreFacts.
Context {B : Builtins}.

(** C2: a buy on the primary for an existing key.  If the requested
    quantity exceeds the stored one, the response has status error and the
    node (the quantity of the key, the version number, the transaction log)
    is unchanged; if the stored quantity suffices, the response has status
    success, the stored quantity goes down by the requested amount and is
    not negative, and [remaining_quantity] is the new stored quantity. *)
Theorem buy_product_debit (e : env) (area shop product : string)
    (quantity current : Z) (n : Node) :
  is_primary n = true →
  stock (inventory n) area shop product = Some current →
  let '(r, n', _) := buy_product e area shop product quantity n in
  (current < quantity →
     r !! "status" = Some (JStr "error") ∧
     stock (inventory n') area shop product = Some current ∧
     version_number n' = version_number n ∧
     transaction_log n' = transaction_log n ∧
     n' = n) ∧
  (quantity ≤ current →
     r !! "status" = Some (JStr "success") ∧
     stock (inventory n') area shop product = Some (current - quantity) ∧
     0 ≤ current - quantity ∧
     r !! "remaining_quantity" = Some (JInt (current - quantity))).
Proof.
  intros Hp Hs. unfold buy_product, forwards_writes. rewrite Hp, Hs. simpl.
  destruct (decide (quantity ≤ current)) as [Hle|Hgt].
  - split; [lia|]. intros _.
    cbn [inventory set_transaction_log set_version_number set_inventory].
    rewrite (stock_store _ _ _ _ current) by done.
    repeat split; try done; lia.
  - split; [|lia]. intros _. by repeat split.
Qed.

(** A local mutation moves the version by one when it succeeds and leaves
    it when it fails, and the node keeps applying its writes locally. *)
Lemma apply_mutation_version (em : env * mutation) (n : Node) :
  forwards_writes n = false →
  forwards_writes (apply_mutation em n).2 = false ∧
  version_number (apply_mutation em n).2
  = if status_is_success (apply_mutation em n).1
    then version_number n + 1 else version_number n.
Proof.
  intros Hf. destruct em as [e [area shop product q|area shop product q]];
    unfold apply_mutation; simpl.
  - unfold buy_product. rewrite Hf.
    destruct (stock (inventory n) area shop product) as [c|]; [|done].
    destruct (decide (q ≤ c)); [|done]. by split.
  - unfold add_stock. rewrite Hf. by split.
Qed.

(** C3: along every sequence of local mutations (buy or add_stock) on a
    node that applies its writes itself, each mutation that succeeds moves
    the version from [v] to [v + 1] and each one that fails leaves it at
    [v]; the version at the end is the version at the start plus the number
    of committed mutations, and it never goes down. *)
Theorem version_counts_committed_mutations (ms : list (env * mutation))
    (n : Node) :
  forwards_writes n = false →
  let '(l, n') := mutation_log ms n in
  Forall (λ '(ok, v, v'), v' = if ok : bool then v + 1 else v) l ∧
  version_number n' = version_number n + Z.of_nat (committed l) ∧
  version_number n ≤ version_number n'.
Proof.
  revert n. induction ms as [|m ms IH]; intros n Hf.
  - simpl. repeat split; [by constructor | unfold committed; simpl; lia | lia].
  - simpl. destruct (apply_mutation_version m n Hf) as [Hf1 Hv].
    destruct (apply_mutation m n) as [r n1]. simpl in Hf1, Hv.
    specialize (IH n1 Hf1). destruct (mutation_log ms n1) as [l n2].
    destruct IH as (IH1 & IH2 & IH3). split; [by constructor|].
    unfold committed in *. rewrite filter_cons. simpl.
    destruct (status_is_success r); simpl; lia.
Qed.

(** C10: a primary that receives a replicate message answers with status
    error and the message 'Primary cannot receive replication', and its
    inventory, version number and transaction log (the whole node) are
    unchanged; [process_request] gives that answer with no effect. *)
Theorem primary_rejects_replication (e : env) (client_id : option string)
    (transaction : Transaction) (full_state : Inventory) (version : Z)
    (n : Node) :
  is_primary n = true →
  let '(r, n') := handle_replication transaction full_state version n in
  r !! "status" = Some (JStr "error") ∧
  r !! "message" = Some (JStr "Primary cannot receive replication") ∧
  n' = n ∧
  inventory n' = inventory n ∧
  version_number n' = version_number n ∧
  transaction_log n' = transaction_log n ∧
  process_request e client_id (Replicate transaction full_state version) n
  = (Ok r, n, []).
Proof.
  intros Hp. unfold process_request, handle_replication. rewrite Hp.
  by repeat split.
Qed.
End StoreFacts.

(** C1, as the code has it: on a backup that holds version V, a replicate
    or sync_request message with a lower version V' is not rejected.  The
    pushed inventory is installed, the version becomes V', the pushed
    transaction is appended to the log (for a sync, the pushed transactions
    are appended and the last 100 entries kept), and the response has
    status success and version V'. *)
Theorem stale_push_is_installed (now : float) (transaction : Transaction)
    (full_state : Inventory) (new_transactions : list Transaction)
    (version : Z) (n : Node) :
  is_primary n = false →
  version < version_number n →
  (let '(r, n') := handle_replication transaction full_state version n in
   r !! "status" = Some (JStr "success") ∧
   r !! "version" = Some (JInt version) ∧
   inventory n' = full_state ∧
   version_number n' = version ∧
   transaction_log n' = transaction_log n ++ [transaction]) ∧
  (let '(r, n') :=
     handle_sync_request now full_state new_transactions version n in
   r !! "status" = Some (JStr "success") ∧
   r !! "version" = Some (JInt version) ∧
   inventory n' = full_state ∧
   version_number n' = version ∧
   transaction_log n'
   = last_n 100 (transaction_log n ++ new_transactions)).
Proof.
  intros Hb _. unfold handle_replication, handle_sync_request. rewrite Hb.
  by repeat split.
Qed.

(** Counterexample to C1 as stated: a backup at version 5 with 45 apples
    receives a replicate message, and a sync_request, of version 3 with 47
    apples; each of them brings it to version 3 with 47 apples and a longer
    log. *)
Lemma stale_push_overwrites_backup :
  let stale := store load_initial_data "borivali" "Fresh_Mart" "apple" 47 in
  let n := demo_backup_v5 in
  let n1 := (handle_replication (demo_transaction 3) stale 3 n).2 in
  let n2 := (handle_sync_request 7%float stale [demo_transaction 3] 3 n).2 in
  role n = Backup ∧ version_number n = 5 ∧
  stock (inventory n) "borivali" "Fresh_Mart" "apple" = Some 45 ∧
  version_number n1 = 3 ∧
  stock (inventory n1) "borivali" "Fresh_Mart" "apple" = Some 47 ∧
  length (transaction_log n1) = 2%nat ∧
  version_number n2 = 3 ∧
  stock (inventory n2) "borivali" "Fresh_Mart" "apple" = Some 47 ∧
  length (transaction_log n2) = 2%nat ∧
  n1 ≠ n ∧ n2 ≠ n.
Proof.
  repeat split; try reflexivity.
  - intros H. apply (f_equal version_number) in H. discriminate H.
  - intros H. apply (f_equal version_number) in H. discriminate H.
Qed.

Lemma stale_push_is_installed_witness :
  is_primary demo_backup_v5 = false ∧
  3 < version_number demo_backup_v5 ∧
  version_number
    (handle_replication (demo_transaction 3) load_initial_data 3
       demo_backup_v5).2 = 3.
Proof.
  split; [reflexivity|]. split; [reflexivity|].
  pose proof (stale_push_is_installed 7%float (demo_transaction 3)
                load_initial_data [] 3 demo_backup_v5 eq_refl eq_refl)
    as [H _].
  destruct (handle_replication _ _ _ _) as [r n'].
  exact (proj1 (proj2 (proj2 (proj2 H)))).
Defined.

Lemma buy_product_debit_witness :
  is_primary demo_primary = true ∧
  stock (inventory demo_primary) "borivali" "Fresh_Mart" "apple" = Some 50 ∧
  let '(r, n', _) :=
    buy_product (B := example_builtins) (demo_env NetTimeout)
      "borivali" "Fresh_Mart" "apple" 4 demo_primary in
  r !! "remaining_quantity" = Some (JInt 46) ∧
  stock (inventory n') "borivali" "Fresh_Mart" "apple" = Some 46.
Proof.
  split; [reflexivity|]. split; [reflexivity|].
  pose proof (buy_product_debit (B := example_builtins) (demo_env NetTimeout)
                "borivali" "Fresh_Mart" "apple" 4 50 demo_primary
                eq_refl eq_refl) as H.
  destruct (buy_product _ _ _ _ _ _) as [[r n'] out].
  destruct H as [_ H]. destruct H as (_ & H2 & _ & H4); [lia|].
  split; [exact H4 | exact H2].
Defined.

Lemma version_counts_committed_mutations_witness :
  let e := demo_env NetTimeout in
  let ms := [(e, MBuy "borivali" "Fresh_Mart" "apple" 4);
             (e, MBuy "borivali" "Fresh_Mart" "apple" 100);
             (e, MAddStock "borivali" "Fresh_Mart" "pear" 5)]%string in
  forwards_writes demo_primary = false ∧
  let '(l, n') := mutation_log (B := example_builtins) ms demo_primary in
  Forall (λ '(ok, v, v'), v' = if ok : bool then v + 1 else v) l ∧
  version_number n' = version_number demo_primary + Z.of_nat (committed l) ∧
  version_number demo_primary ≤ version_number n'.
Proof.
  intros e ms. split; [reflexivity|].
  apply (version_counts_committed_mutations (B := example_builtins)).
  reflexivity.
Defined.

Lemma primary_rejects_replication_witness :
  is_primary demo_primary = true ∧
  (process_request (B := example_builtins) (demo_env NetTimeout) None
     (Replicate (demo_transaction 9) (mkInventory []) 9) demo_primary).1.2
  = demo_primary.
Proof.
  split; [reflexivity|].
  pose proof (primary_rejects_replication (B := example_builtins)
                (demo_env NetTimeout) None (demo_transaction 9)
                (mkInventory []) 9 demo_primary eq_refl) as H.
  destruct (handle_replication _ _ _ _) as [r n'].
  destruct H as (_ & _ & _ & _ & _ & _ & ->). reflexivity.
Defined.

(** The scenario of the specification: the primary holds 10 of (A, S, p);
    a buy of 4 succeeds with remaining quantity 6 and version 1; a buy of
    10 then fails, and the quantity stays 6 and the version 1. *)
Example buy_scenario :
  let e := demo_env NetTimeout in
  let '(r1, n1, _) :=
    buy_product (B := example_builtins) e "A" "S" "p" 4 scenario_primary in
  let '(r2, n2, _) :=
    buy_product (B := example_builtins) e "A" "S" "p" 10 n1 in
  r1 !! "status" = Some (JStr "success") ∧
  r1 !! "remaining_quantity" = Some (JInt 6) ∧
  r1 !! "version" = Some (JInt 1) ∧
  r2 !! "status" = Some (JStr "error") ∧
  stock (inventory n2) "A" "S" "p" = Some 6 ∧
  version_number n2 = 1.
Proof. repeat split. Qed.

(** ** Fail-over *)

Lemma init_weights_lookup (nodes : list string) (w : gmap string float)
    (x : string) :
  init_weights nodes w !! x
  = match w !! x with
    | Some f => Some f
    | None => if decide (x ∈ nodes) then Some 1.0%float else None
    end.
Proof.
  unfold init_weights. revert w.
  induction nodes as [|y nodes IH]; intros w; simpl.
  - by destruct (w !! x).
  - rewrite IH. destruct (decide (y = x)) as [->|Hne].
    + destruct (w !! x) eqn:Hx; rewrite ?Hx; [done|].
      rewrite lookup_insert_eq. rewrite decide_True; [done | left].
    + assert ((match w !! y with Some _ => w | None => <[y:=1.0%float]> w end)
                !! x = w !! x) as ->.
      { destruct (w !! y); [done | by rewrite lookup_insert_ne]. }
      destruct (w !! x); [done|].
      destruct (decide (x ∈ nodes)) as [Hin|Hnin].
      * rewrite decide_True; [done | by right].
      * rewrite decide_False; [done|]. intros [?|?]%elem_of_cons; congruence.
Qed.

(** Every node [set_active_nodes] makes active has a weight. *)
Lemma set_active_nodes_weights (nodes : list string) (lb : LoadBalancer)
    (x : string) :
  x ∈ active_nodes (set_active_nodes nodes lb) →
  is_Some (node_weights (set_active_nodes nodes lb) !! x).
Proof.
  simpl. intros Hin. rewrite init_weights_lookup.
  destruct (node_weights lb !! x); [done|]. by rewrite decide_True.
Qed.

(** C4, as the code has it: the fail-over sets the role to Primary, takes
    as backup peers the known replica ports 8001 and 8002 other than its
    own, installs a fresh load balancer (round robin, cursor 0, no
    connection count, no response time) whose active set is not empty but
    holds the identifier of every such peer, each with weight 1.0, and
    starts the heartbeat sender, the backup monitor and the load-balancer
    monitor.  The store is not touched. *)
Theorem initiate_failover_spec (n : Node) :
  let '(n', started) := initiate_failover n in
  role n' = Primary ∧
  is_backup n' = false ∧
  primary_port n' = Some (port n) ∧
  backup_ports n' = filter (λ p, p ≠ port n) [8001; 8002] ∧
  (∃ lb,
     load_balancer n' = Some lb ∧
     active_nodes lb = backup_name <$> backup_ports n' ∧
     active_nodes lb ≠ [] ∧
     current_algorithm lb = "round_robin"%string ∧
     round_robin_index lb = 0%nat ∧
     node_connections lb = ∅ ∧
     node_response_times lb = ∅ ∧
     ∀ x, node_weights lb !! x
          = if decide (x ∈ active_nodes lb) then Some 1.0%float else None) ∧
  started = [Spawn T_heartbeat_sender; Spawn T_backup_monitor;
             Spawn T_load_balancer_monitor] ∧
  inventory n' = inventory n ∧
  version_number n' = version_number n ∧
  transaction_log n' = transaction_log n.
Proof.
  unfold initiate_failover, role. cbn [fst snd is_primary is_backup
    primary_port backup_ports set_load_balancer set_role_primary
    load_balancer inventory version_number transaction_log].
  repeat split.
  eexists. split; [done|]. cbn [active_nodes set_active_nodes set_node_weights
    set_active_list current_algorithm round_robin_index node_connections
    node_response_times node_weights LoadBalancer_init].
  repeat split.
  - rewrite !filter_cons, filter_nil.
    destruct (decide (8001 ≠ port n)) as [|H1]; [done|].
    destruct (decide (8002 ≠ port n)) as [|H2]; [done|].
    exfalso. apply dec_stable in H1, H2. congruence.
  - intros x. by rewrite init_weights_lookup, lookup_empty.
Qed.

(** The transition is what the heartbeat monitor of an active backup does
    when more than 10 seconds passed since the last heartbeat. *)
Lemma heartbeat_timeout_starts_failover (now : float) (n : Node) :
  is_active n = true → is_primary n = false →
  PrimFloat.ltb 10 (now - last_heartbeat n) = true →
  heartbeat_monitor now n = initiate_failover n.
Proof.
  intros Ha Hp Ht. unfold heartbeat_monitor. by rewrite Ha, Hp, Ht.
Qed.

(** Counterexample to C4 as stated: the load balancer the backup on port
    8001 installs at fail-over has the active set [backup-8002], which is
    not empty. *)
Lemma failover_active_set_not_empty :
  ∃ lb, load_balancer (initiate_failover demo_backup).1 = Some lb ∧
        active_nodes lb = ["backup-8002"]%string ∧
        active_nodes lb ≠ [].
Proof.
  eexists. split; [reflexivity|]. split; [reflexivity | discriminate].
Qed.

(** ** Forwarded reads *)

Lemma remove_first_NoDup (x : string) (l : list string) :
  NoDup l → x ∉ remove_first x l.
Proof.
  induction 1 as [|y l Hy Hnd IH]; simpl; [apply not_elem_of_nil|].
  destruct (decide (x = y)) as [->|Hne]; [done|].
  intros [?|?]%elem_of_cons; [done | by apply IH].
Qed.

Lemma remove_first_absent (x : string) (l : list string) :
  x ∉ l → remove_first x l = l.
Proof.
  induction l as [|y l IH]; simpl; [done|].
  intros [Hne Hx]%not_elem_of_cons.
  rewrite decide_False by done. by rewrite IH.
Qed.

(** The window of response times [update_node_metrics] keeps: the old
    one extended by the new sample, cut to its last 10 entries. *)
Lemma response_window (old : list float) (t : float) :
  let times := if decide (10 < length (old ++ [t]))%nat
               then last_n 10 (old ++ [t]) else old ++ [t] in
  (length times ≤ 10)%nat ∧ last times = Some t ∧
  times `suffix_of` old ++ [t].
Proof.
  intros times.
  assert (times `suffix_of` old ++ [t]) as Hsuf.
  { subst times. case_decide; [apply suffix_drop | done]. }
  assert (times ≠ []) as Hne.
  { subst times. case_decide as Hlen.
    - unfold last_n. intros Hnil. apply (f_equal length) in Hnil.
      rewrite length_drop in Hnil. simpl in Hnil. lia.
    - by destruct old. }
  split; [|split; [|done]].
  - subst times. case_decide; [|lia]. unfold last_n. rewrite length_drop. lia.
  - destruct Hsuf as [pre Hpre].
    destruct times as [|z times0 _] using rev_ind; [done|].
    rewrite app_assoc in Hpre. apply app_inj_tail in Hpre as [_ ->].
    by rewrite last_snoc.
Qed.

Section ForwardFacts.
Context {B : Builtins}.

(** What a failure recorded by [update_node_metrics] leaves for a node
    that has a weight: the sample at the end of the window of the node, and
    the weight of the node, recomputed from the average of the window when
    that is positive, multiplied by 0.9. *)
Lemma update_node_metrics_failure_record (node : string) (t : float)
    (lb : LoadBalancer) (old_w : float) :
  node_weights lb !! node = Some old_w →
  ∃ lb' times,
    update_node_metrics node t false lb = (Ok (), lb') ∧
    node_response_times lb' !! node = Some times ∧
    (length times ≤ 10)%nat ∧ last times = Some t ∧
    times `suffix_of` default [] (node_response_times lb !! node) ++ [t] ∧
    (let count :=
       PrimFloat.of_uint63 (Uint63.of_Z (Z.of_nat (length times))) in
     let avg := (float_sum times / count)%float in
     node_weights lb' !! node
     = Some ((if PrimFloat.ltb 0 avg then 1.0 / avg else old_w) * 0.9)%float) ∧
    active_nodes lb' = active_nodes lb ∧
    node_connections lb' = node_connections lb.
Proof.
  intros Hw.
  set (old := default [] (node_response_times lb !! node)).
  pose proof (response_window old t) as Hwin. cbv zeta in Hwin.
  set (times := if decide (10 < length (old ++ [t]))%nat
                then last_n 10 (old ++ [t]) else old ++ [t]) in *.
  destruct Hwin as (Hlen & Hlast & Hsuf).
  unfold update_node_metrics. fold old. cbv zeta. fold times.
  destruct (PrimFloat.ltb 0 _) eqn:Hpos;
    cbn [node_weights set_node_weights set_node_response_times].
  - rewrite lookup_insert_eq. eexists _, times. split; [done|].
    cbn [node_response_times node_weights set_node_weights
         set_node_response_times active_nodes node_connections].
    rewrite !lookup_insert_eq, Hpos. by repeat split.
  - rewrite Hw. eexists _, times. split; [done|].
    cbn [node_response_times node_weights set_node_weights
         set_node_response_times active_nodes node_connections].
    rewrite !lookup_insert_eq, Hpos. by repeat split.
Qed.

(** C6, as the code has it: a load-balanced read whose forwarding fails is
    served locally, from the state of the primary, and the response is the
    local search result with status success, [load_balanced] false and a
    fallback reason; the store is not touched.  When the call times out,
    the reason is 'backup_timeout' and the target is removed from the
    active list (its first occurrence; the target is gone when the list has
    no duplicates).  When the call fails in another way (the connection is
    refused, say) and the target has a weight, the reason is the text of
    the error, the active list is unchanged, and the failure is recorded
    in the metrics of the target: the time of the failed call ends its
    window of response times, and its weight, recomputed from the average
    of the window when that is positive, is multiplied by 0.9. *)
Theorem forward_read_request_fallback (e : env) (target_port : Z)
    (product : string) (n : Node) (lb : LoadBalancer) :
  load_balancer n = Some lb →
  let target := backup_name target_port in
  let '(r, n') := forward_read_request e target_port product n in
  let local reason :=
    <["fallback_reason" := JStr reason]>
      (<["load_balanced" := JBool false]>
         (search_product (env_iso e) product n)) in
  inventory n' = inventory n ∧ version_number n' = version_number n ∧
  (∀ reason, local reason !! "status" = Some (JStr "success") ∧
             local reason !! "load_balanced" = Some (JBool false) ∧
             local reason !! "fallback_reason" = Some (JStr reason) ∧
             local reason !! "served_by" = Some (JStr (node_id n))) ∧
  (env_net e = NetTimeout →
     r = Ok (local "backup_timeout"%string) ∧
     ∃ lb', load_balancer n' = Some lb' ∧
            active_nodes lb' = remove_first target (active_nodes lb) ∧
            (NoDup (active_nodes lb) → target ∉ active_nodes lb')) ∧
  (∀ msg, env_net e = NetError msg →
     is_Some (node_weights lb !! target) →
     r = Ok (local msg) ∧
     ∃ lb' times old_w,
       load_balancer n' = Some lb' ∧
       active_nodes lb' = active_nodes lb ∧
       node_weights lb !! target = Some old_w ∧
       node_response_times lb' !! target = Some times ∧
       (length times ≤ 10)%nat ∧
       last times = Some (env_t_except e - env_t_start e)%float ∧
       times `suffix_of` default [] (node_response_times lb !! target)
                         ++ [(env_t_except e - env_t_start e)%float] ∧
       let count :=
         PrimFloat.of_uint63 (Uint63.of_Z (Z.of_nat (length times))) in
       let avg := (float_sum times / count)%float in
       node_weights lb' !! target
       = Some ((if PrimFloat.ltb 0 avg then 1.0 / avg else old_w) * 0.9)%float).
Proof.
  intros Hlb target. unfold forward_read_request. rewrite Hlb. fold target.
  destruct (forward_attempt e target product
              (increment_connections target lb) n) as [r lb2] eqn:Hatt.
  split; [done|]. split; [done|]. split; [by intros reason|].
  unfold forward_attempt in Hatt. split.
  - intros Hnet. rewrite Hnet in Hatt.
    injection Hatt as <- <-. split; [done|].
    eexists. split; [done|]. rewrite decrement_connections_active.
    cbn [active_nodes increment_connections set_node_connections].
    destruct (decide (target ∈ active_nodes lb)) as [Hin|Hnin]; simpl.
    + split; [done|]. apply remove_first_NoDup.
    + rewrite remove_first_absent by done. by split.
  - intros msg Hnet [old_w Hw]. rewrite Hnet in Hatt.
    unfold on_forward_error in Hatt.
    destruct (update_node_metrics_failure_record target
                (env_t_except e - env_t_start e)
                (increment_connections target lb) old_w Hw)
      as (lbm & times & Hupd & Htimes & Hlen & Hlast & Hsuf & Hweight
          & Hact & _).
    rewrite Hupd in Hatt. injection Hatt as <- <-. split; [done|].
    exists (decrement_connections target lbm), times, old_w.
    rewrite decrement_connections_active.
    assert (node_response_times (decrement_connections target lbm)
            = node_response_times lbm ∧
            node_weights (decrement_connections target lbm)
            = node_weights lbm) as [-> ->]
      by (unfold decrement_connections; by case_decide).
    by repeat split.
Qed.
End ForwardFacts.

(** Counterexample to C6 as stated: the primary has the active set
    [backup-8001, backup-8002], and the connection to port 8001 is refused.
    The read is answered locally with [load_balanced] false, and
    backup-8001 is still in the active set. *)
Lemma refused_backup_stays_active :
  let e := demo_env (NetError "[Errno 111] Connection refused") in
  let out :=
    forward_read_request (B := example_builtins) e 8001 "apple"
      demo_primary_two in
  active_nodes <$> load_balancer demo_primary_two
  = Some ["backup-8001"; "backup-8002"]%string ∧
  (r ← (match out.1 with Ok r => Some r | Raise _ => None end);
   r !! "load_balanced") = Some (JBool false) ∧
  active_nodes <$> load_balancer out.2
  = Some ["backup-8001"; "backup-8002"]%string ∧
  ∃ lb', load_balancer out.2 = Some lb' ∧
         "backup-8001"%string ∈ active_nodes lb'.
Proof.
  intros e out.
  assert (active_nodes <$> load_balancer out.2
          = Some ["backup-8001"; "backup-8002"]%string) as Hact
    by (vm_compute; reflexivity).
  split; [vm_compute; reflexivity|]. split; [vm_compute; reflexivity|].
  split; [exact Hact|].
  destruct (load_balancer out.2) as [lb'|]; [|discriminate Hact].
  exists lb'. split; [reflexivity|].
  injection Hact as ->. apply list_elem_of_here.
Qed.

Lemma forward_read_request_fallback_witness :
  load_balancer demo_primary_two = Some demo_balancer ∧
  ∃ lb', load_balancer
           (forward_read_request (B := example_builtins)
              (demo_env NetTimeout) 8001 "apple" demo_primary_two).2
         = Some lb' ∧
         active_nodes lb' = ["backup-8002"]%string.
Proof.
  assert (load_balancer demo_primary_two = Some demo_balancer) as H1
    by reflexivity.
  split; [exact H1|].
  pose proof (forward_read_request_fallback (B := example_builtins)
                (demo_env NetTimeout) 8001 "apple" demo_primary_two
                demo_balancer H1) as H.
  destruct (forward_read_request _ _ _ _) as [r n'].
  destruct H as (_ & _ & _ & H & _).
  destruct (H eq_refl) as (_ & lb' & Hlb' & Hact & _).
  exists lb'. split; [exact Hlb' | exact Hact].
Defined.

(** ** The role along a run *)

Section RoleFacts.
Context {B : Builtins}.

Lemma forward_read_request_role (e : env) (p : Z) (product : string)
    (n : Node) :
  is_primary (forward_read_request e p product n).2 = is_primary n.
Proof.
  unfold forward_read_request.
  destruct (load_balancer n); [|done].
  by destruct (forward_attempt _ _ _ _ _).
Qed.

Lemma handle_load_balanced_read_role (e : env) (cid : option string)
    (product : string) (n : Node) :
  is_primary (handle_load_balanced_read e cid product n).2 = is_primary n.
Proof.
  unfold handle_load_balanced_read.
  destruct (load_balancer n) as [lb|]; [|done].
  destruct (get_next_node _ _ _ _) as [[sel|ex] lb']; [|done].
  destruct (falsy sel); [done|].
  destruct (_ !! 1%nat) as [digits|]; [|done].
  destruct (int_of_str digits) as [p|]; [|done].
  pose proof (forward_read_request_role e p product
                (set_load_balancer (Some lb') n)) as H.
  destruct (forward_read_request _ _ _ _) as [[r|[]] n2]; done.
Qed.

(** No request handler changes the role. *)
Lemma process_request_role (e : env) (cid : option string) (req : request)
    (n : Node) :
  is_primary (process_request e cid req n).1.2 = is_primary n.
Proof.
  destruct req; unfold process_request; simpl; try done.
  - destruct (is_primary n && _); [|done].
    pose proof (handle_load_balanced_read_role e cid product n) as Hrole.
    by destruct (handle_load_balanced_read _ _ _ _).
  - unfold buy_product. repeat case_match; done.
  - unfold add_stock. by case_match.
  - unfold handle_replication. by case_match.
  - unfold configure_load_balancer. repeat case_match; done.
Qed.

(** A step keeps the role, unless it is the turn of the heartbeat monitor
    of a backup that runs the fail-over. *)
Lemma step_role (ev : event) (n : Node) :
  is_primary (step ev n) = is_primary n ∨
  ∃ now, ev = HeartbeatMonitorTurn now ∧ is_primary n = false ∧
         step ev n = (initiate_failover n).1 ∧
         is_primary (step ev n) = true.
Proof.
  destruct ev; simpl.
  - left. unfold handle_request.
    pose proof (process_request_role e
                  (Some (client_address.1 +:+ ":" +:+ pretty client_address.2))
                  req n) as H.
    by destruct (process_request _ _ _ _) as [[[r|ex] n'] out].
  - unfold heartbeat_monitor.
    destruct (is_active n); simpl; [|by left].
    destruct (is_primary n) eqn:Hp; simpl; [by left|].
    destruct (PrimFloat.ltb _ _); [|by left].
    right. by exists now.
  - left. unfold heartbeat_sender. by case_match.
  - left. unfold backup_monitor. by case_match.
  - left. unfold load_balancer_monitor. repeat case_match; done.
  - left. unfold performance_monitor. by case_match.
  - by left.
Qed.

Lemma step_keeps_primary (ev : event) (n : Node) :
  is_primary n = true → is_primary (step ev n) = true.
Proof.
  intros Hp. destruct (step_role ev n) as [->|(now & _ & _ & _ & ->)]; done.
Qed.

Lemma states_keep_primary (evs : list event) (n : Node) :
  is_primary n = true → Forall (λ s, role s = Primary) (states evs n).
Proof.
  revert n. induction evs as [|ev evs IH]; intros n Hp; simpl.
  - constructor; [|constructor]. unfold role. by rewrite Hp.
  - constructor; [unfold role; by rewrite Hp|].
    apply IH. by apply step_keeps_primary.
Qed.

Lemma role_changes_all_primary (rs : list NodeRole) :
  Forall (λ r, r = Primary) rs → role_changes rs = 0%nat ∧ demotions rs = 0%nat.
Proof.
  induction 1 as [|r rs -> Hrs IH]; [done|].
  destruct Hrs as [|r' rs' -> Hrs']; [done|]. simpl in *. done.
Qed.

(** C9: along every run of a node (requests served, turns of the heartbeat
    sender and monitor, of the backup monitor, of the load-balancer and
    performance monitors, shutdown), from any state, the role never goes
    from Primary to Backup, it changes at most once, and a node that is
    primary is primary at the end of the run. *)
Theorem role_never_returns_to_backup (evs : list event) (n : Node) :
  demotions (role <$> states evs n) = 0%nat ∧
  (role_changes (role <$> states evs n) ≤ 1)%nat ∧
  (role n = Primary → role (run evs n) = Primary).
Proof.
  assert (∀ evs n, is_primary n = true →
            role_changes (role <$> states evs n) = 0%nat ∧
            demotions (role <$> states evs n) = 0%nat) as Hprim.
  { intros evs' n' Hp. apply role_changes_all_primary.
    apply Forall_fmap. by apply states_keep_primary. }
  split; [|split].
  - revert n. induction evs as [|ev evs IH]; intros n;
      [simpl; by destruct (role n)|].
    destruct (is_primary n) eqn:Hp; [by apply Hprim|].
    specialize (IH (step ev n)). simpl.
    unfold role at 1. rewrite Hp.
    destruct evs; simpl in *; by destruct (role (step ev n)).
  - revert n. induction evs as [|ev evs IH]; intros n.
    { simpl. destruct (role n); simpl; lia. }
    destruct (is_primary n) eqn:Hp.
    { destruct (Hprim (ev :: evs) n Hp) as [-> _]. lia. }
    simpl. unfold role at 1. rewrite Hp.
    destruct (is_primary (step ev n)) eqn:Hp'.
    + destruct (Hprim evs (step ev n) Hp') as [H0 _].
      destruct evs; simpl in *; unfold role in *; rewrite Hp' in *;
        simpl in *; lia.
    + specialize (IH (step ev n)).
      destruct evs; simpl in *; unfold role in *; rewrite Hp' in *;
        simpl in *; lia.
  - unfold role. destruct (is_primary n) eqn:Hp; [|done]. intros _.
    revert n Hp. induction evs as [|ev evs IH]; intros n Hp; simpl.
    + by rewrite Hp.
    + apply IH. by apply step_keeps_primary.
Qed.

(** X27: a step that changes the role is a turn of the heartbeat monitor
    on a backup, and the state it leaves is the state of the fail-over. *)
Lemma role_change_is_failover (ev : event) (n : Node) :
  role (step ev n) ≠ role n →
  ∃ now, ev = HeartbeatMonitorTurn now ∧ role n = Backup ∧
         step ev n = (initiate_failover n).1.
Proof.
  unfold role.
  destruct (step_role ev n) as [->|(now & -> & Hp & Hstep & _)]; [done|].
  intros _. exists now. by rewrite Hp.
Qed.
End RoleFacts.

Lemma role_never_returns_to_backup_witness :
  role (initiate_failover demo_backup).1 = Primary ∧
  role (run (B := example_builtins) demo_run (initiate_failover demo_backup).1)
  = Primary.
Proof.
  split; [reflexivity|].
  apply (role_never_returns_to_backup (B := example_builtins)).
  reflexivity.
Defined.

(** The run of [demo_run] from a backup: the role changes once, at the
    turn of the heartbeat monitor that times out, and the replication and
    the sync that follow do not bring the backup role back. *)
Example demo_run_roles :
  role <$> states (B := example_builtins) demo_run demo_backup
  = [Backup; Backup; Backup; Primary; Primary; Primary; Primary; Primary;
     Primary] ∧
  role_changes (role <$> states (B := example_builtins) demo_run demo_backup)
  = 1%nat.
Proof. split; vm_compute; reflexivity. Qed.

(** What the defect of [round_robin] does to a client: on the primary of
    [demo_primary_shrunk] the active set is [backup-8001] and the cursor is
    1; the search of the next client raises [IndexError] in
    [process_request], and [handle_client] sends no answer. *)
Example shrunk_active_set_drops_search :
  (∃ lb, load_balancer demo_primary_shrunk = Some lb ∧
         active_nodes lb = ["backup-8001"]%string ∧
         round_robin_index lb = 1%nat) ∧
  (process_request (B := example_builtins) (demo_env NetTimeout)
     (Some "127.0.0.1:5001"%string) (Search "apple") demo_primary_shrunk).1.1
  = Raise IndexError ∧
  (handle_request (B := example_builtins) ("127.0.0.1"%string, 5001)
     5%float 5.5%float (demo_env NetTimeout) (Search "apple")
     demo_primary_shrunk).1.1 = None.
Proof.
  split; [|split].
  - eexists. split; [vm_compute; reflexivity|]. split; reflexivity.
  - vm_compute. reflexivity.
  - vm_compute. reflexivity.
Qed.

(** ** Weights of the active nodes *)

Lemma lb_shrinks_refl (lb : LoadBalancer) : lb_shrinks lb lb.
Proof. by split. Qed.

Lemma lb_shrinks_trans (a b c : LoadBalancer) :
  lb_shrinks a b → lb_shrinks b c → lb_shrinks a c.
Proof.
  intros [H1 H2] [H3 H4]. split; [by etrans | auto].
Qed.

Lemma weights_cover_shrinks (lb lb' : LoadBalancer) :
  weights_cover lb → lb_shrinks lb lb' → weights_cover lb'.
Proof. intros Hc [Ha Hw] x Hx. apply Hw, Hc, Ha, Hx. Qed.

Lemma remove_first_subseteq (x : string) (l : list string) :
  remove_first x l ⊆ l.
Proof.
  induction l as [|y l IH]; simpl; [done|].
  destruct (decide (x = y)); [intros z Hz; by right|].
  intros z [->|Hz]%elem_of_cons; [left | right; by apply IH].
Qed.

Section ReachableFacts.
Context {B : Builtins}.

Lemma round_robin_shrinks (lb : LoadBalancer) :
  lb_shrinks lb (round_robin lb).2.
Proof. unfold round_robin. repeat case_match; by split. Qed.

Lemma get_next_node_shrinks (r : float) (k : nat) (cid : option string)
    (lb : LoadBalancer) :
  lb_shrinks lb (get_next_node r k cid lb).2.
Proof.
  unfold get_next_node, hash_based.
  repeat case_match; simpl; try apply lb_shrinks_refl;
    apply round_robin_shrinks.
Qed.

Lemma update_node_metrics_shrinks (node : string) (t : float) (ok : bool)
    (lb : LoadBalancer) :
  lb_shrinks lb (update_node_metrics node t ok lb).2.
Proof.
  unfold update_node_metrics. cbv zeta.
  repeat case_match; simpl; (split; [done|]); simpl; intros x Hx;
    rewrite ?lookup_insert; repeat case_decide; done.
Qed.

Lemma increment_connections_shrinks (node : string) (lb : LoadBalancer) :
  lb_shrinks lb (increment_connections node lb).
Proof. by split. Qed.

Lemma decrement_connections_shrinks (node : string) (lb : LoadBalancer) :
  lb_shrinks lb (decrement_connections node lb).
Proof. unfold decrement_connections. case_decide; by split. Qed.

Lemma forward_attempt_shrinks (e : env) (target product : string)
    (lb : LoadBalancer) (n : Node) :
  lb_shrinks lb (forward_attempt e target product lb n).2.
Proof.
  unfold forward_attempt, on_forward_error.
  destruct (env_net e) as [|msg|r].
  - case_decide; [|apply lb_shrinks_refl].
    split; [apply remove_first_subseteq | done].
  - pose proof (update_node_metrics_shrinks target
                  (env_t_except e - env_t_start e) false lb) as H.
    by destruct (update_node_metrics _ _ false lb) as [[[]|ex] lb'].
  - pose proof (update_node_metrics_shrinks target
                  (env_t_done e - env_t_start e) (status_is_success r) lb)
      as H.
    destruct (update_node_metrics _ _ (status_is_success r) lb)
      as [[[]|ex] lb']; [done|]. simpl in H.
    pose proof (update_node_metrics_shrinks target
                  (env_t_except e - env_t_start e) false lb') as H'.
    destruct (update_node_metrics _ _ false lb') as [[[]|ex'] lb''];
      simpl in *; by eapply lb_shrinks_trans.
Qed.

Lemma forward_read_request_cover (e : env) (p : Z) (product : string)
    (n : Node) :
  node_weights_cover n →
  node_weights_cover (forward_read_request e p product n).2.
Proof.
  intros Hn. unfold forward_read_request.
  destruct (load_balancer n) as [lb|] eqn:Hlb; [|done].
  pose proof (forward_attempt_shrinks e (backup_name p) product
                (increment_connections (backup_name p) lb) n) as H.
  destruct (forward_attempt _ _ _ _ _) as [r lb2]. simpl in *.
  intros lb' [= <-]. eapply weights_cover_shrinks; [by apply Hn|].
  eapply lb_shrinks_trans; [apply increment_connections_shrinks|].
  eapply lb_shrinks_trans; [exact H | apply decrement_connections_shrinks].
Qed.

Lemma set_load_balancer_cover (lb : LoadBalancer) (n : Node) :
  weights_cover lb → node_weights_cover (set_load_balancer (Some lb) n).
Proof. by intros H lb' [= <-]. Qed.

Lemma handle_load_balanced_read_cover (e : env) (cid : option string)
    (product : string) (n : Node) :
  node_weights_cover n →
  node_weights_cover (handle_load_balanced_read e cid product n).2.
Proof.
  intros Hn. unfold handle_load_balanced_read.
  destruct (load_balancer n) as [lb|] eqn:Hlb; [|done].
  pose proof (get_next_node_shrinks (env_rand e) (env_choice e) cid lb) as H.
  destruct (get_next_node _ _ _ _) as [[sel|ex] lb']; simpl in H.
  2: { apply set_load_balancer_cover. eapply weights_cover_shrinks; eauto. }
  assert (node_weights_cover (set_load_balancer (Some lb') n)) as Hn1.
  { apply set_load_balancer_cover. eapply weights_cover_shrinks; eauto. }
  destruct (falsy sel); [done|].
  destruct (_ !! 1%nat) as [digits|]; [|done].
  destruct (int_of_str digits) as [p|]; [|done].
  pose proof (forward_read_request_cover e p product _ Hn1) as H2.
  destruct (forward_read_request _ _ _ _) as [[r|[]] n2]; done.
Qed.

Lemma process_request_cover (e : env) (cid : option string) (req : request)
    (n : Node) :
  node_weights_cover n →
  node_weights_cover (process_request e cid req n).1.2.
Proof.
  intros Hn. destruct req; unfold process_request; simpl; try done.
  - destruct (is_primary n && _); [|done].
    pose proof (handle_load_balanced_read_cover e cid product n Hn) as H.
    by destruct (handle_load_balanced_read _ _ _ _).
  - unfold buy_product. repeat case_match; done.
  - unfold add_stock. by case_match.
  - unfold handle_replication. by case_match.
  - unfold configure_load_balancer.
    destruct (is_primary n); [|done].
    destruct (load_balancer n) as [lb|] eqn:Hlb; [|done].
    unfold set_algorithm. case_decide; simpl; intros lb' [= <-];
      intros x Hx; by apply (Hn lb Hlb).
Qed.

Lemma step_cover (ev : event) (n : Node) :
  node_weights_cover n → node_weights_cover (step ev n).
Proof.
  intros Hn. destruct ev; simpl.
  - unfold handle_request.
    pose proof (process_request_cover e
                  (Some (client_address.1 +:+ ":" +:+ pretty client_address.2))
                  req n Hn) as H.
    by destruct (process_request _ _ _ _) as [[[r|ex] n'] out].
  - unfold heartbeat_monitor. repeat case_match; try done.
    simpl. intros lb [= <-] x. apply set_active_nodes_weights.
  - unfold heartbeat_sender. case_match; [|done]. simpl.
    destruct (load_balancer n) as [lb|]; [|done].
    intros lb' [= <-] x. apply set_active_nodes_weights.
  - unfold backup_monitor. case_match; [|done]. simpl.
    destruct (load_balancer n) as [lb|]; [|done].
    intros lb' [= <-] x. apply set_active_nodes_weights.
  - unfold load_balancer_monitor.
    destruct (load_balancer n) as [lb|] eqn:Hlb; [|done].
    repeat case_match; try done. simpl.
    intros lb' [= <-] x Hx. by apply (Hn lb Hlb).
  - unfold performance_monitor. by case_match.
  - done.
Qed.

(** X26: in every state a node reaches from its start, every active node of
    its load balancer has a weight: the recording of a failed forward never
    raises for a node taken from the active set. *)
Theorem reachable_weights_cover (id : string) (p : Z) (primary : bool)
    (now : float) (evs : list event) :
  node_weights_cover (run evs (Node_init id p primary now)).
Proof.
  assert (node_weights_cover (Node_init id p primary now)) as Hinit.
  { intros lb. destruct primary; simpl; [|done].
    intros [= <-] x Hx. by apply elem_of_nil in Hx. }
  revert Hinit. generalize (Node_init id p primary now).
  induction evs as [|ev evs IH]; intros n Hn; [done|].
  simpl. apply IH. by apply step_cover.
Qed.
End ReachableFacts.

Section ReadFacts.
Context {B : Builtins}.

(** A load-balanced read is the forwarded read to the port named by the
    selected node, on the node that holds the advanced load balancer. *)
Lemma handle_load_balanced_read_forwards (e : env) (cid : option string)
    (product : string) (n : Node) (lb lb' : LoadBalancer)
    (node digits : string) (target_port : Z) :
  load_balancer n = Some lb →
  get_next_node (env_rand e) (env_choice e) cid lb = (Ok (Some node), lb') →
  node ≠ ""%string →
  split_on "-" node !! 1%nat = Some digits →
  int_of_str digits = Some target_port →
  let out :=
    forward_read_request e target_port product
      (set_load_balancer (Some lb') n) in
  out.1 ≠ Raise ValueError → out.1 ≠ Raise IndexError →
  handle_load_balanced_read e cid product n = out.
Proof.
  intros Hlb Hsel Hne Hsplit Hint out Hv Hi.
  unfold handle_load_balanced_read. rewrite Hlb, Hsel. simpl.
  rewrite bool_decide_eq_false_2 by done. rewrite Hsplit, Hint. fold out.
  destruct out as [[r|[]] n2]; done.
Qed.
End ReadFacts.

(** ** More on the load balancer *)

Lemma round_robin_member_witness :
  (round_robin_index demo_balancer < length (active_nodes demo_balancer))%nat ∧
  ∃ node lb',
    round_robin demo_balancer = (Ok (Some node), lb') ∧
    node ∈ active_nodes demo_balancer ∧
    active_nodes lb' = active_nodes demo_balancer ∧
    (round_robin_index lb' < length (active_nodes lb'))%nat.
Proof.
  assert (round_robin_index demo_balancer
          < length (active_nodes demo_balancer))%nat as H by (simpl; lia).
  split; [exact H|]. exact (round_robin_member demo_balancer H).
Defined.

Lemma round_robin_coverage_witness :
  (round_robin_index demo_balancer < length (active_nodes demo_balancer))%nat ∧
  NoDup (active_nodes demo_balancer) ∧
  "backup-8002"%string ∈ active_nodes demo_balancer ∧
  times_selected "backup-8002"
    (round_robin_calls (3 * length (active_nodes demo_balancer))
       demo_balancer).1 = 3%nat.
Proof.
  assert (round_robin_index demo_balancer
          < length (active_nodes demo_balancer))%nat as H1 by (simpl; lia).
  assert (NoDup (active_nodes demo_balancer)) as H2.
  { simpl. apply NoDup_cons. split; [|apply NoDup_singleton].
    intros Hin. apply list_elem_of_singleton in Hin. discriminate Hin. }
  assert ("backup-8002"%string ∈ active_nodes demo_balancer) as H3.
  { simpl. apply list_elem_of_further, list_elem_of_here. }
  split; [exact H1|]. split; [exact H2|]. split; [exact H3|].
  exact (round_robin_coverage 3 demo_balancer "backup-8002" H1 H2 H3).
Defined.

(** X3: once the cursor is at or past the end of a non-empty active list,
    every later call of [round_robin] raises [IndexError] and leaves the
    load balancer as it is: the selection does not recover by itself. *)
Theorem round_robin_stays_stuck (m : nat) (lb : LoadBalancer) :
  active_nodes lb ≠ [] →
  (length (active_nodes lb) ≤ round_robin_index lb)%nat →
  round_robin_calls m lb = (replicate m (Raise IndexError), lb).
Proof.
  intros Hne Hge. induction m as [|m IH]; [done|].
  cbn [round_robin_calls]. rewrite round_robin_past_end by done.
  by rewrite IH.
Qed.

Lemma round_robin_stays_stuck_witness :
  let lb := set_active_nodes ["backup-8001"]%string
              (round_robin demo_balancer).2 in
  active_nodes lb ≠ [] ∧
  (length (active_nodes lb) ≤ round_robin_index lb)%nat ∧
  round_robin_calls 4 lb = (replicate 4 (Raise IndexError), lb).
Proof.
  intros lb.
  assert (active_nodes lb ≠ []) as H1 by discriminate.
  assert (length (active_nodes lb) ≤ round_robin_index lb)%nat as H2
    by (simpl; lia).
  split; [exact H1|]. split; [exact H2|].
  exact (round_robin_stays_stuck 4 lb H1 H2).
Defined.

(** X4: [set_active_nodes] replaces the active list; a node that had a
    weight keeps it, a new node of the list gets weight 1.0, no other
    weight appears; the cursor, the algorithm, the connection counts and
    the response times are untouched. *)
Theorem set_active_nodes_spec (nodes : list string) (lb : LoadBalancer)
    (x : string) :
  let lb' := set_active_nodes nodes lb in
  active_nodes lb' = nodes ∧
  node_weights lb' !! x
  = match node_weights lb !! x with
    | Some w => Some w
    | None => if decide (x ∈ nodes) then Some 1.0%float else None
    end ∧
  round_robin_index lb' = round_robin_index lb ∧
  current_algorithm lb' = current_algorithm lb ∧
  node_connections lb' = node_connections lb ∧
  node_response_times lb' = node_response_times lb.
Proof. simpl. repeat split. apply init_weights_lookup. Qed.

Lemma list_min_le (x : Z) (l : list Z) :
  list_min x l ≤ x ∧ Forall (λ y, list_min x l ≤ y) l ∧ list_min x l ∈ x :: l.
Proof.
  unfold list_min. revert x. induction l as [|y l IH]; intros x; simpl.
  - repeat split; [lia | constructor | left].
  - destruct (IH (x `min` y)) as (H1 & H2 & H3). repeat split.
    + lia.
    + constructor; [lia | done].
    + apply elem_of_cons in H3 as [H3|H3].
      * rewrite H3. destruct (Z.min_spec x y) as [[_ ->]|[_ ->]];
          [left | right; left].
      * right. by right.
Qed.

(** X5: on a non-empty active list [least_connections] returns an active
    node, whatever index the random choice draws, and no active node has
    fewer connections than the node returned. *)
Theorem least_connections_minimal (k : nat) (lb : LoadBalancer) :
  active_nodes lb ≠ [] →
  ∃ node,
    least_connections k lb = Some node ∧
    node ∈ active_nodes lb ∧
    ∀ other, other ∈ active_nodes lb →
      connections_of lb node ≤ connections_of lb other.
Proof.
  intros Hne. unfold least_connections.
  destruct (active_nodes lb) as [|first rest] eqn:Hact; [done|].
  set (m := list_min (connections_of lb first) (connections_of lb <$> rest)).
  destruct (list_min_le (connections_of lb first) (connections_of lb <$> rest))
    as (Hfirst & Hrest & Hin). fold m in Hfirst, Hrest, Hin.
  set (candidates := filter (λ node, connections_of lb node = m)
                       (first :: rest)).
  assert (∃ c, c ∈ candidates) as [c Hc].
  { rewrite <- fmap_cons in Hin. apply list_elem_of_fmap in Hin as (c & Hc & Hin).
    exists c. apply list_elem_of_filter. by split. }
  assert (k `mod` length candidates < length candidates)%nat as Hlt.
  { apply Nat.mod_upper_bound. destruct candidates; [|done].
    by apply elem_of_nil in Hc. }
  destruct (lookup_lt_is_Some_2 _ _ Hlt) as [node Hnode].
  exists node. split; [done|].
  apply list_elem_of_lookup_2, list_elem_of_filter in Hnode as [Hm Hin'].
  split; [done|]. intros other Hother. rewrite Hm.
  apply elem_of_cons in Hother as [->|Hother]; [done|].
  rewrite Forall_fmap, Forall_forall in Hrest. by apply Hrest.
Qed.

Lemma least_connections_minimal_witness :
  active_nodes demo_balancer ≠ [] ∧
  ∃ node, least_connections 7 demo_balancer = Some node ∧
          node ∈ active_nodes demo_balancer.
Proof.
  assert (active_nodes demo_balancer ≠ []) as H by discriminate.
  split; [exact H|].
  destruct (least_connections_minimal 7 demo_balancer H) as (node & H1 & H2 & _).
  exists node. split; [exact H1 | exact H2].
Defined.

Lemma weighted_pick_member (lb : LoadBalancer) (rand_val cumulative : float)
    (nodes : list string) (node : string) :
  weighted_pick lb rand_val cumulative nodes = Some node → node ∈ nodes.
Proof.
  revert cumulative. induction nodes as [|y nodes IH]; intros c; simpl; [done|].
  destruct (PrimFloat.leb _ _).
  - intros [= ->]. left.
  - intros H. right. by eapply IH.
Qed.

(** On a non-empty active list some node has the minimal count, so the
    choice is made among at least one candidate. *)
Lemma least_connections_member (k : nat) (lb : LoadBalancer) :
  active_nodes lb ≠ [] →
  ∃ node, least_connections k lb = Some node ∧ node ∈ active_nodes lb.
Proof.
  intros Hne. unfold least_connections.
  destruct (active_nodes lb) as [|first rest] eqn:Hact; [done|].
  destruct (list_min_le (connections_of lb first) (connections_of lb <$> rest))
    as (_ & _ & Hin).
  rewrite <- fmap_cons in Hin.
  apply list_elem_of_fmap in Hin as (c & Hc & Hin).
  match goal with |- context [filter ?P ?l] => set (candidates := filter P l) end.
  assert (c ∈ candidates) as Hcand by (apply list_elem_of_filter; by split).
  assert (k `mod` length candidates < length candidates)%nat as Hlt.
  { apply Nat.mod_upper_bound. destruct candidates; [|done].
    by apply elem_of_nil in Hcand. }
  destruct (lookup_lt_is_Some_2 _ _ Hlt) as [node Hnode].
  exists node. split; [done|].
  by apply list_elem_of_lookup_2, list_elem_of_filter in Hnode as [_ ?].
Qed.

Section MoreLoadBalancerFacts.
Context {B : Builtins}.

(** X6: on a non-empty active list [weighted_round_robin] returns an
    active node for every draw and every table of weights (the first node
    when no running total reaches the draw, as with a NaN). *)
Theorem weighted_round_robin_member (r : float) (lb : LoadBalancer) :
  active_nodes lb ≠ [] →
  ∃ node, weighted_round_robin r lb = Some node ∧ node ∈ active_nodes lb.
Proof.
  intros Hne. unfold weighted_round_robin.
  destruct (active_nodes lb) as [|first rest] eqn:Hact; [done|].
  destruct (weighted_pick _ _ _ _) as [node|] eqn:Hpick.
  - exists node. split; [done|]. by eapply weighted_pick_member.
  - exists first. split; [done | left].
Qed.

(** X7: [get_next_node] returns [None] on an empty active list and changes
    nothing; on a non-empty one, with a known algorithm and the cursor
    inside the list, it returns an active node under each of the four
    policies and keeps the active list. *)
Theorem get_next_node_selects_active (r : float) (k : nat)
    (client_id : option string) (lb : LoadBalancer) :
  current_algorithm lb ∈ algorithms →
  (round_robin_index lb < length (active_nodes lb))%nat
  ∨ active_nodes lb = [] →
  match active_nodes lb with
  | [] => get_next_node r k client_id lb = (Ok None, lb)
  | _ :: _ =>
      ∃ node lb',
        get_next_node r k client_id lb = (Ok (Some node), lb') ∧
        node ∈ active_nodes lb ∧
        active_nodes lb' = active_nodes lb
  end.
Proof.
  intros Halg Hidx. unfold get_next_node.
  destruct (active_nodes lb) as [|first rest] eqn:Hact; [done|].
  destruct Hidx as [Hidx|]; [|done].
  assert (∃ node lb', round_robin lb = (Ok (Some node), lb') ∧
            node ∈ first :: rest ∧ active_nodes lb' = first :: rest) as Hrr.
  { destruct (round_robin_in_range lb) as (node & Hnode & ->);
      [by rewrite Hact|].
    exists node. eexists. split; [done|]. rewrite <- Hact.
    split; [by eapply list_elem_of_lookup_2 | done]. }
  repeat case_decide.
  - done.
  - unfold weighted_round_robin. rewrite Hact.
    destruct (weighted_pick _ _ _ _) as [node|] eqn:Hpick.
    + exists node, lb. split; [done|].
      split; [by eapply weighted_pick_member | done].
    + exists first, lb. split; [done|]. split; [left | done].
  - destruct (least_connections_member k lb) as (node & -> & Hin);
      [by rewrite Hact|].
    exists node, lb. by rewrite <- Hact.
  - unfold hash_based.
    rewrite bool_decide_eq_false_2 by (by rewrite Hact). cbn [orb].
    destruct (falsy client_id); [done|].
    match goal with |- context [active_nodes lb !! ?i] =>
      destruct (lookup_lt_is_Some_2 (active_nodes lb) i) as [node Hnode] end.
    { apply Nat.mod_upper_bound. rewrite Hact. simpl. lia. }
    rewrite Hnode. exists node, lb.
    split; [done|]. rewrite <- Hact.
    split; [by eapply list_elem_of_lookup_2 | done].
  - exfalso. unfold algorithms in Halg.
    repeat (apply elem_of_cons in Halg as [?|Halg]; [done|]).
    by apply elem_of_nil in Halg.
Qed.

(** X8: after [update_node_metrics], on success or failure (and also when
    the call raises), the window of response times of the node holds at
    most 10 samples, ends with the new sample and is the end of the old
    window extended by it; the windows of the other nodes are untouched. *)
Theorem update_node_metrics_window (node : string) (t : float) (ok : bool)
    (lb : LoadBalancer) :
  let lb' := (update_node_metrics node t ok lb).2 in
  ∃ times,
    node_response_times lb' !! node = Some times ∧
    (length times ≤ 10)%nat ∧
    last times = Some t ∧
    times `suffix_of` default [] (node_response_times lb !! node) ++ [t] ∧
    ∀ x, x ≠ node →
      node_response_times lb' !! x = node_response_times lb !! x.
Proof.
  set (old := default [] (node_response_times lb !! node)).
  set (times := if decide (10 < length (old ++ [t]))%nat
                then last_n 10 (old ++ [t]) else old ++ [t]).
  assert (node_response_times (update_node_metrics node t ok lb).2
          = <[node := times]> (node_response_times lb)) as Hrt.
  { unfold update_node_metrics. fold old. cbv zeta. fold times.
    repeat case_match; done. }
  simpl. exists times. rewrite Hrt, lookup_insert_eq. split; [done|].
  assert (times `suffix_of` old ++ [t]) as Hsuf.
  { subst times. case_decide; [apply suffix_drop | done]. }
  assert (times ≠ []) as Hne.
  { subst times. case_decide as Hlen.
    - unfold last_n. intros Hnil. apply (f_equal length) in Hnil.
      rewrite length_drop in Hnil. simpl in Hnil. lia.
    - by destruct old. }
  split; [|split; [|split; [done|]]].
  - subst times. case_decide; [|lia]. unfold last_n. rewrite length_drop. lia.
  - destruct Hsuf as [pre Hpre].
    destruct times as [|z times0 _] using rev_ind; [done|].
    rewrite app_assoc in Hpre. apply app_inj_tail in Hpre as [_ ->].
    by rewrite last_snoc.
  - intros x Hx. by rewrite lookup_insert_ne.
Qed.
End MoreLoadBalancerFacts.

Lemma weighted_round_robin_member_witness :
  active_nodes demo_balancer ≠ [] ∧
  ∃ node, weighted_round_robin (B := example_builtins) 0.5%float demo_balancer
          = Some node ∧ node ∈ active_nodes demo_balancer.
Proof.
  assert (active_nodes demo_balancer ≠ []) as H by discriminate.
  split; [exact H|].
  exact (weighted_round_robin_member (B := example_builtins) 0.5%float
           demo_balancer H).
Defined.

Lemma get_next_node_selects_active_witness :
  current_algorithm demo_balancer ∈ algorithms ∧
  ((round_robin_index demo_balancer < length (active_nodes demo_balancer))%nat
   ∨ active_nodes demo_balancer = []) ∧
  ∃ node lb',
    get_next_node (B := example_builtins) 0.5%float 0 None demo_balancer
    = (Ok (Some node), lb') ∧
    node ∈ active_nodes demo_balancer ∧
    active_nodes lb' = active_nodes demo_balancer.
Proof.
  assert (current_algorithm demo_balancer ∈ algorithms) as H1
    by apply list_elem_of_here.
  assert ((round_robin_index demo_balancer
           < length (active_nodes demo_balancer))%nat
          ∨ active_nodes demo_balancer = []) as H2 by (left; simpl; lia).
  split; [exact H1|]. split; [exact H2|].
  exact (get_next_node_selects_active (B := example_builtins) 0.5%float 0 None
           demo_balancer H1 H2).
Defined.

(** ** More on the store *)

Lemma od_mem_get {V} (k : string) (d : odict V) :
  od_mem k d = bool_decide (is_Some (od_get k d)).
Proof.
  unfold od_mem. destruct (od_get k d); symmetry.
  - by apply bool_decide_eq_true_2.
  - apply bool_decide_eq_false_2. by intros [? ?].
Qed.

(** Writing under an existing key changes the quantity of that key and of
    no other. *)
Lemma stock_store_frame (inv : Inventory) (area shop product : string)
    (c q : Z) (area' shop' product' : string) :
  stock inv area shop product = Some c →
  stock (store inv area shop product q) area' shop' product'
  = if decide ((area, shop, product) = (area', shop', product'))
    then Some q else stock inv area' shop' product'.
Proof.
  intros H. case_decide as Hk.
  { injection Hk as <- <- <-. by eapply stock_store. }
  revert H. unfold stock, store.
  destruct (od_get area (areas inv)) as [ad|] eqn:Ha; [|done]. simpl.
  destruct (od_get shop (shops ad)) as [items|] eqn:Hs; [|done]. simpl.
  intros Hp.
  destruct (decide (area = area')) as [<-|Hne].
  2: { by rewrite od_get_set_ne by done. }
  rewrite od_get_set_eq, Ha. simpl.
  destruct (decide (shop = shop')) as [<-|Hne].
  2: { by rewrite od_get_set_ne by done. }
  rewrite od_get_set_eq, Hs. simpl.
  rewrite od_get_set_ne; [done|]. congruence.
Qed.

(** The quantity [add_stock] leaves under every key. *)
Lemma stock_add_to_inventory (inv : Inventory) (area shop product : string)
    (q : Z) (area' shop' product' : string) :
  stock (add_to_inventory inv area shop product q) area' shop' product'
  = if decide ((area, shop, product) = (area', shop', product'))
    then Some (default 0 (stock inv area shop product) + q)
    else stock inv area' shop' product'.
Proof.
  unfold add_to_inventory. rewrite !od_mem_get.
  set (areas1 := if bool_decide (is_Some (od_get area (areas inv)))
                 then areas inv else od_set area (mkArea []) (areas inv)).
  set (ad := default (mkArea []) (od_get area areas1)).
  set (shops1 := if bool_decide (is_Some (od_get shop (shops ad)))
                 then shops ad else od_set shop [] (shops ad)).
  set (items := default [] (od_get shop shops1)).
  assert (∀ a, a ≠ area → od_get a areas1 = od_get a (areas inv)) as Hareas.
  { intros a Ha. subst areas1. case_bool_decide; [done|].
    by rewrite od_get_set_ne. }
  assert (shops <$> od_get area (areas inv) = None ∧ shops ad = []
          ∨ od_get area (areas inv) = Some ad) as Had.
  { subst ad areas1. destruct (od_get area (areas inv)) as [x|] eqn:Hx.
    - right. rewrite bool_decide_eq_true_2 by done. by rewrite Hx.
    - left. rewrite bool_decide_eq_false_2 by (by intros [? ?]).
      by rewrite od_get_set_eq. }
  assert (∀ s, s ≠ shop → od_get s shops1 = od_get s (shops ad)) as Hshops.
  { intros s Hs. subst shops1. case_bool_decide; [done|].
    by rewrite od_get_set_ne. }
  assert (od_get shop (shops ad) = None ∧ items = []
          ∨ od_get shop (shops ad) = Some items) as Hitems.
  { subst items shops1. destruct (od_get shop (shops ad)) as [x|] eqn:Hx.
    - right. rewrite bool_decide_eq_true_2 by done. by rewrite Hx.
    - left. rewrite bool_decide_eq_false_2 by (by intros [? ?]).
      by rewrite od_get_set_eq. }
  assert (stock inv area shop product = od_get product items) as Hold.
  { unfold stock. destruct Had as [[Hnone Hnil]|Hsome].
    - destruct (od_get area (areas inv)); [done|]. simpl.
      destruct Hitems as [[_ ->] | Hi]; [done|]. by rewrite Hnil in Hi.
    - rewrite Hsome. simpl. destruct Hitems as [[-> ->] | ->]; done. }
  clearbody items shops1 ad areas1.
  unfold stock at 1. cbn [areas shops].
  destruct (decide (area = area')) as [<-|Hne].
  2: { rewrite od_get_set_ne, Hareas by done.
       rewrite decide_False; [done|]. congruence. }
  rewrite od_get_set_eq. cbn [mbind option_bind shops].
  destruct (decide (shop = shop')) as [<-|Hne].
  2: { rewrite od_get_set_ne, Hshops by done.
       rewrite decide_False by congruence. unfold stock.
       destruct Had as [[Hnone ->] | ->]; [|done].
       by destruct (od_get area (areas inv)). }
  rewrite od_get_set_eq. cbn [mbind option_bind].
  destruct (decide (product = product')) as [<-|Hne].
  - rewrite od_get_set_eq, decide_True, Hold by done.
    by destruct (od_get product items).
  - rewrite od_get_set_ne, decide_False by congruence.
    unfold stock. destruct Had as [[Hnone Hnil] | ->].
    + destruct (od_get area (areas inv)); [done|]. simpl.
      destruct Hitems as [[_ ->] | Hi]; [done|]. by rewrite Hnil in Hi.
    + simpl. destruct Hitems as [[-> ->] | ->]; done.
Qed.

Lemma od_get_elem_of {V} (k : string) (v : V) (d : odict V) :
  od_get k d = Some v → (k, v) ∈ d.
Proof.
  induction d as [|[k' v'] d IH]; simpl; [done|].
  case_decide as Hk; [intros [= ->]; subst; left | right; by apply IH].
Qed.

Lemma od_get_NoDup {V} (k : string) (v : V) (d : odict V) :
  NoDup d.*1 → (k, v) ∈ d → od_get k d = Some v.
Proof.
  induction d as [|[k' v'] d IH]; simpl; intros Hnd Hin;
    [by apply elem_of_nil in Hin|].
  apply NoDup_cons in Hnd as [Hk' Hnd].
  apply elem_of_cons in Hin as [[= -> ->]|Hin]; [by rewrite decide_True|].
  rewrite decide_False; [by apply IH|]. intros ->. apply Hk'.
  apply list_elem_of_fmap. by exists (k', v).
Qed.

Lemma stock_in_quantities (inv : Inventory) (area shop product : string)
    (q : Z) :
  stock inv area shop product = Some q → q ∈ quantities inv.
Proof.
  unfold stock, quantities. intros H.
  destruct (od_get area (areas inv)) as [ad|] eqn:Ha; [|done]. simpl in H.
  destruct (od_get shop (shops ad)) as [items|] eqn:Hs; [|done]. simpl in H.
  apply list_elem_of_bind. exists (area, ad).
  split; [|by apply od_get_elem_of].
  apply list_elem_of_bind. exists (shop, items).
  split; [|by apply od_get_elem_of].
  apply list_elem_of_fmap. exists (product, q).
  split; [done | by apply od_get_elem_of].
Qed.

(** An inventory whose listed quantities are all non-negative. *)
Lemma quantities_nonneg (inv : Inventory) :
  Forall (λ q, 0 ≤ q) (quantities inv) → inventory_nonneg inv.
Proof.
  intros H area shop product q Hs. rewrite Forall_forall in H.
  by eapply H, stock_in_quantities.
Qed.

Lemma load_initial_data_wf : inventory_wf load_initial_data.
Proof.
  split; [simpl; compute_done|].
  intros area ad Hin. simpl in Hin.
  repeat (apply elem_of_cons in Hin as [[= -> ->]|Hin];
          [simpl; compute_done|]).
  by apply elem_of_nil in Hin.
Qed.

Lemma load_initial_data_nonneg : inventory_nonneg load_initial_data.
Proof. apply quantities_nonneg. vm_compute. repeat constructor; discriminate. Qed.

Section MoreStoreFacts.
Context {B : Builtins}.

(** X9: a buy that does not answer success, on any node (unknown key,
    insufficient quantity, or a forwarded buy the primary refused or did
    not answer), leaves the node exactly as it was and sends nothing to the
    backups. *)
Theorem buy_product_failure_is_noop (e : env) (area shop product : string)
    (quantity : Z) (n : Node) :
  let '(r, n', out) := buy_product e area shop product quantity n in
  (status_is_success r = false → n' = n ∧ out = []) ∧
  (stock (inventory n) area shop product = None →
   forwards_writes n = false →
   r !! "status" = Some (JStr "error") ∧
   r !! "message"
   = Some (JStr ("Product " +:+ product +:+ " not found in "
                 +:+ shop +:+ ", " +:+ area))).
Proof.
  unfold buy_product. destruct (forwards_writes n); [by split|].
  destruct (stock (inventory n) area shop product) as [c|]; [|by split].
  case_decide; [|by split]. split; [|done].
  intros Hs. by vm_compute in Hs.
Qed.

(** X10: a buy that commits on a node that applies its writes itself
    changes the quantity of its key and of no other, raises the version by
    one, appends to the log one transaction that records the key, the
    quantity and the new version, reports the new version, and (on a
    primary) hands one replicate message per backup port, each with that
    transaction, the new inventory and the new version. *)
Theorem buy_product_commit (e : env) (area shop product : string)
    (quantity current : Z) (n : Node) :
  forwards_writes n = false →
  stock (inventory n) area shop product = Some current →
  quantity ≤ current →
  let '(r, n', out) := buy_product e area shop product quantity n in
  (∀ area' shop' product',
     stock (inventory n') area' shop' product'
     = if decide ((area, shop, product) = (area', shop', product'))
       then Some (current - quantity)
       else stock (inventory n) area' shop' product') ∧
  version_number n' = version_number n + 1 ∧
  r !! "version" = Some (JInt (version_number n')) ∧
  (∃ tx, transaction_log n' = transaction_log n ++ [tx] ∧
         tx_type tx = "buy"%string ∧
         (tx_area tx, tx_shop tx, tx_product tx) = (area, shop, product) ∧
         tx_quantity tx = quantity ∧
         tx_version tx = version_number n' ∧
         r !! "transaction_id" = Some (JStr (transaction_id tx)) ∧
         out = if is_primary n
               then (λ p, Send p (Replicate tx (inventory n')
                                    (version_number n')))
                    <$> backup_ports n
               else []).
Proof.
  intros Hf Hs Hle. unfold buy_product. rewrite Hf, Hs.
  rewrite decide_True by done.
  cbn [inventory set_transaction_log set_version_number set_inventory
       version_number transaction_log is_primary].
  split; [|split; [done|split; [done|]]].
  - intros area' shop' product'. by eapply stock_store_frame.
  - eexists. split; [done|]. by repeat split.
Qed.

(** X11: [add_stock] on a node that applies its writes itself always
    commits, for every integer quantity (a negative one included): the key
    gets its old quantity, or 0 if it did not exist, plus the quantity
    given; missing area, shop and product are created; no other key
    changes; the version goes up by one and the log gets one transaction
    with the new version; [new_quantity] is the quantity stored. *)
Theorem add_stock_commit (e : env) (area shop product : string)
    (quantity : Z) (n : Node) :
  forwards_writes n = false →
  let '(r, n', out) := add_stock e area shop product quantity n in
  let stored := default 0 (stock (inventory n) area shop product) + quantity in
  r !! "status" = Some (JStr "success") ∧
  r !! "new_quantity" = Some (JInt stored) ∧
  (∀ area' shop' product',
     stock (inventory n') area' shop' product'
     = if decide ((area, shop, product) = (area', shop', product'))
       then Some stored
       else stock (inventory n) area' shop' product') ∧
  version_number n' = version_number n + 1 ∧
  (∃ tx, transaction_log n' = transaction_log n ++ [tx] ∧
         tx_type tx = "add_stock"%string ∧
         tx_quantity tx = quantity ∧
         tx_version tx = version_number n' ∧
         out = if is_primary n
               then (λ p, Send p (Replicate tx (inventory n')
                                    (version_number n')))
                    <$> backup_ports n
               else []).
Proof.
  intros Hf. unfold add_stock. rewrite Hf.
  cbn [inventory set_transaction_log set_version_number set_inventory
       version_number transaction_log is_primary].
  assert (∀ a s p, stock (add_to_inventory (inventory n) area shop product
                            quantity) a s p
                   = if decide ((area, shop, product) = (a, s, p))
                     then Some (default 0 (stock (inventory n) area shop
                                             product) + quantity)
                     else stock (inventory n) a s p) as Hstock
    by (intros; apply stock_add_to_inventory).
  split; [done|]. split.
  { rewrite (Hstock area shop product), decide_True by done. done. }
  split; [done|]. split; [done|].
  eexists. split; [done|]. by repeat split.
Qed.

(** X12: a node that is not primary and knows the address of the primary
    never applies a write itself: for a buy or an add_stock request it
    stays as it was, sends nothing, and answers with the reply of the
    primary, or with the error 'Primary node unavailable' when the call to
    the primary fails or times out. *)
Theorem backup_forwards_writes (e : env) (client_id : option string)
    (area shop product : string) (quantity : Z) (n : Node) :
  is_primary n = false →
  is_Some (primary_address n) →
  let answer :=
    match env_net e with
    | NetReply r => r
    | _ => {[ "status" := JStr "error";
              "message" := JStr "Primary node unavailable" ]}
    end in
  process_request e client_id (Buy area shop product (Some quantity)) n
  = (Ok answer, n, []) ∧
  process_request e client_id (Buy area shop product None) n
  = (Ok answer, n, []) ∧
  process_request e client_id (AddStock area shop product quantity) n
  = (Ok answer, n, []).
Proof.
  intros Hp Ha. unfold process_request, buy_product, add_stock,
    forwards_writes, forward_to_primary.
  rewrite Hp, bool_decide_eq_true_2 by done. simpl.
  by destruct (env_net e).
Qed.
End MoreStoreFacts.

(** ** Replication and resynchronisation *)

Lemma last_n_length {A} (k : nat) (l : list A) :
  (length (last_n k l) ≤ k)%nat ∧ last_n k l `suffix_of` l.
Proof.
  unfold last_n. split; [rewrite length_drop; lia | apply suffix_drop].
Qed.

(** X13: [handle_sync_request] does not look at the role: every node, a
    primary included, installs the pushed inventory and version.  The log
    afterwards is the end of the old log extended by the pushed
    transactions and holds at most 100 entries, and the time of the last
    heartbeat becomes the time of the sync. *)
Theorem handle_sync_request_installs (now : float) (full_state : Inventory)
    (new_transactions : list Transaction) (version : Z) (n : Node) :
  let '(r, n') :=
    handle_sync_request now full_state new_transactions version n in
  r !! "status" = Some (JStr "success") ∧
  inventory n' = full_state ∧
  version_number n' = version ∧
  (length (transaction_log n') ≤ 100)%nat ∧
  transaction_log n' `suffix_of` transaction_log n ++ new_transactions ∧
  ((length (transaction_log n ++ new_transactions) ≤ 100)%nat →
   transaction_log n' = transaction_log n ++ new_transactions) ∧
  last_heartbeat n' = now ∧
  is_primary n' = is_primary n.
Proof.
  unfold handle_sync_request. cbn [fst snd inventory version_number
    transaction_log last_heartbeat is_primary set_last_heartbeat
    set_transaction_log set_version_number set_inventory].
  destruct (last_n_length 100 (transaction_log n ++ new_transactions))
    as [Hlen Hsuf].
  repeat split; try done.
  intros Hle. unfold last_n.
  replace (length (transaction_log n ++ new_transactions) - 100)%nat
    with 0%nat by lia. done.
Qed.

(** *** The receiving side *)

Lemma recv_length (k : nat) (s : string) :
  (String.length (recv k s) ≤ k)%nat.
Proof.
  unfold recv. revert k.
  induction s as [|c s IH]; intros [|k]; simpl; try lia.
  specialize (IH k). lia.
Qed.

Lemma recv_prefix (k : nat) (s : string) :
  String.prefix (recv k s) s = true.
Proof.
  unfold recv. revert k.
  induction s as [|c s IH]; intros [|k]; simpl; try done.
  destruct (ascii_dec c c); [apply IH | done].
Qed.

Lemma recv_whole (k : nat) (s : string) :
  (String.length s ≤ k)%nat → recv k s = s.
Proof.
  unfold recv. revert k.
  induction s as [|c s IH]; intros [|k] Hlen; simpl in *; try done; try lia.
  f_equal. apply IH. lia.
Qed.

Lemma prefix_trans (a b c : string) :
  String.prefix a b = true → String.prefix b c = true →
  String.prefix a c = true.
Proof.
  revert b c.
  induction a as [|x a IH]; intros [|y b] [|z c]; simpl; try done.
  destruct (ascii_dec x y) as [->|]; [|done].
  destruct (ascii_dec y z) as [->|]; [|done].
  apply IH.
Qed.

Section ReplicationFacts.
Context {B : Builtins} {J : Json}.

(** A document longer than the buffer of [recv] is never read whole,
    whatever part of it has arrived: when no proper prefix of it decodes,
    nothing is processed and nothing is answered. *)
Lemma handle_client_cut_short (a : string * Z) (t0 t1 : float) (e : env)
    (text bytes : string) (n : Node) :
  (2048 < String.length text)%nat →
  no_prefix_decodes text →
  String.prefix bytes text = true →
  handle_client a t0 t1 e (Arrived bytes) n = (None, n, []).
Proof.
  intros Hlen Hcut Hpre. unfold handle_client. cbv zeta.
  case_decide as Hdata; [done|].
  rewrite Hcut; [done| |].
  - eapply prefix_trans; [apply recv_prefix | done].
  - intros Heq. pose proof (recv_length 2048 bytes) as H.
    rewrite Heq in H. lia.
Qed.

(** A document of at most 2048 bytes that arrived whole and decodes is
    handled as the message it decodes to. *)
Lemma handle_client_whole (a : string * Z) (t0 t1 : float) (e : env)
    (text : string) (m : request) (n : Node) :
  text ≠ ""%string →
  (String.length text ≤ 2048)%nat →
  json_loads text = Some m →
  handle_client a t0 t1 e (Arrived text) n = handle_request a t0 t1 e m n.
Proof.
  intros Hne Hlen Hm. unfold handle_client. cbv zeta.
  rewrite recv_whole by done. rewrite decide_False by done.
  by rewrite Hm.
Qed.

(** What no request changes: whether the node is active and how many
    requests it counted; and, but for a sync, the time of the last
    heartbeat. *)
Lemma process_request_frame (e : env) (cid : option string) (req : request)
    (n : Node) :
  let n' := (process_request e cid req n).1.2 in
  is_active n' = is_active n ∧
  request_count n' = request_count n ∧
  (is_sync req = false → last_heartbeat n' = last_heartbeat n).
Proof.
  destruct req; unfold process_request; simpl; try done.
  - destruct (is_primary n && _); [|done].
    unfold handle_load_balanced_read.
    destruct (load_balancer n); [|done].
    destruct (get_next_node _ _ _ _) as [[sel|ex] lb']; [|done].
    destruct (falsy sel); [done|].
    destruct (_ !! 1%nat); [|done].
    destruct (int_of_str _) as [port|]; [|done].
    unfold forward_read_request. simpl.
    destruct (forward_attempt _ _ _ _ _) as [[r|[]] lb2]; done.
  - unfold buy_product. repeat case_match; done.
  - unfold add_stock. by case_match.
  - unfold handle_replication. by case_match.
  - unfold configure_load_balancer. repeat case_match; done.
Qed.

(** X14: resynchronisation, from the probe to the backup.  In a turn of
    [backup_monitor] on an active primary, a backup port is sent a
    sync_request exactly when its probe answers with a version lower than
    the version of the primary (a missing version counts as 0).  The text
    of the message carries the version and the last 50 log entries of the
    primary, and the inventory as [json.dumps] finds it.  A backup that
    reads the text whole, which takes a text of at most 2048 bytes, holds
    that inventory and that version afterwards and answers success.  A
    text longer than 2048 bytes is never read whole: whatever part of it
    arrives, the backup processes nothing, answers nothing and stays as it
    was. *)
Theorem backup_monitor_resyncs (probe : Z → probe_outcome) (p : Node)
    (backup_port : Z) (live : Inventory) (client_address : string * Z)
    (t0 t1 : float) (e : env) (bytes : string) (b : Node) :
  is_active p = true →
  is_primary p = true →
  backup_port ∈ backup_ports p →
  let out := (backup_monitor probe p).2 in
  let behind :=
    match probe backup_port with
    | ProbeFail => False
    | ProbeStatus v => default 0 v < version_number p
    end in
  let text := json_dumps (on_wire (sync_message p) live) in
  sync_backup backup_port p = Send backup_port (sync_message p) ∧
  (∀ m, Send backup_port m ∈ out → behind ∧ m = sync_message p) ∧
  (behind → sync_backup backup_port p ∈ out) ∧
  (text ≠ ""%string →
   (String.length text ≤ 2048)%nat →
   json_loads text = Some (on_wire (sync_message p) live) →
   ∃ r b',
     handle_client client_address t0 t1 e (Arrived text) b
     = (Some r, b', []) ∧
     r !! "status" = Some (JStr "success") ∧
     inventory b' = live ∧
     version_number b' = version_number p) ∧
  ((2048 < String.length text)%nat →
   no_prefix_decodes text →
   String.prefix bytes text = true →
   handle_client client_address t0 t1 e (Arrived bytes) b = (None, b, [])).
Proof.
  intros Ha Hp Hport out behind text. subst out. unfold backup_monitor.
  rewrite Ha, Hp. cbn [andb snd].
  split; [done|]. split; [|split; [|split]].
  - intros m Hin. apply list_elem_of_join in Hin as (l & Hin & Hl).
    apply list_elem_of_fmap in Hl as ([names sends] & -> & Hl).
    apply list_elem_of_fmap in Hl as (port' & Hprobe & Hport').
    unfold probe_backup in Hprobe.
    destruct (probe port') as [|v] eqn:Hpr; simplify_eq; simpl in Hin;
      [by apply elem_of_nil in Hin|].
    case_decide as Hlt; [|by apply elem_of_nil in Hin].
    apply list_elem_of_singleton in Hin. unfold sync_backup in Hin.
    injection Hin as -> ->. subst behind. rewrite Hpr. done.
  - intros Hb. subst behind.
    destruct (probe backup_port) as [|v] eqn:Hpr; [done|].
    apply list_elem_of_join. exists [sync_backup backup_port p].
    split; [apply list_elem_of_here|].
    apply list_elem_of_fmap. exists ([backup_name backup_port],
                                [sync_backup backup_port p]).
    split; [done|]. apply list_elem_of_fmap. exists backup_port.
    split; [|done]. unfold probe_backup. rewrite Hpr.
    by rewrite decide_True.
  - intros Hne Hlen Hloads.
    rewrite (handle_client_whole _ _ _ _ _ _ _ Hne Hlen Hloads).
    unfold handle_request, sync_message, on_wire, process_request.
    cbn [fst snd]. do 2 eexists. split; [done|]. by repeat split.
  - apply handle_client_cut_short.
Qed.

(** X15: replication, from the hand-over to the backup.  Every message
    [replicate_to_backups] hands out goes to a backup port of the node and
    is built from the transaction, the inventory and the version the node
    holds.  Its text is written later by [send_to_backup], with the
    inventory as it is by then: a node that is not primary and reads the
    text whole (at most 2048 bytes) holds that inventory under the version
    of the hand-over, has the transaction at the end of its log and
    answers success with that version; so it holds the state of the
    primary at the hand-over if the primary wrote nothing in between.  A
    text longer than 2048 bytes is never read whole: the backup processes
    nothing and stays as it was. *)
Theorem replication_installs_primary_state (transaction : Transaction)
    (p : Node) (eff : effect) (live : Inventory)
    (client_address : string * Z) (t0 t1 : float) (e : env)
    (bytes : string) (b : Node) :
  eff ∈ replicate_to_backups transaction p →
  is_primary b = false →
  let m := Replicate transaction (inventory p) (version_number p) in
  length (replicate_to_backups transaction p) = length (backup_ports p) ∧
  ∃ backup_port,
    let text := (send_to_backup backup_port m live).2 in
    eff = Send backup_port m ∧
    backup_port ∈ backup_ports p ∧
    (send_to_backup backup_port m live).1 = backup_port ∧
    (text ≠ ""%string →
     (String.length text ≤ 2048)%nat →
     json_loads text = Some (on_wire m live) →
     ∃ r b',
       handle_client client_address t0 t1 e (Arrived text) b
       = (Some r, b', []) ∧
       r !! "status" = Some (JStr "success") ∧
       r !! "version" = Some (JInt (version_number p)) ∧
       inventory b' = live ∧
       version_number b' = version_number p ∧
       transaction_log b' = transaction_log b ++ [transaction]) ∧
    ((2048 < String.length text)%nat →
     no_prefix_decodes text →
     String.prefix bytes text = true →
     handle_client client_address t0 t1 e (Arrived bytes) b
     = (None, b, [])).
Proof.
  intros Hin Hb m. unfold replicate_to_backups in *.
  split; [by rewrite length_fmap|].
  apply list_elem_of_fmap in Hin as (port & -> & Hport).
  exists port. cbv zeta. split; [done|]. split; [done|]. split; [done|].
  unfold send_to_backup. cbn [snd]. split.
  - intros Hne Hlen Hloads.
    rewrite (handle_client_whole _ _ _ _ _ _ _ Hne Hlen Hloads).
    unfold handle_request, m, on_wire, process_request, handle_replication.
    rewrite Hb. cbn [fst snd]. do 2 eexists. split; [done|].
    by repeat split.
  - apply handle_client_cut_short.
Qed.

(** X16: the time of the last heartbeat changes by a sync_request only:
    no other request, a message of type heartbeat included (it is answered
    with 'Invalid request type'), refreshes it.  So an active backup that
    served only such requests starts the fail-over at the first turn of its
    heartbeat monitor that finds the last heartbeat more than 10 seconds
    old. *)
Theorem heartbeat_messages_do_not_refresh (evs : list event) (now : float)
    (n : Node) :
  forallb client_request_not_sync evs = true →
  last_heartbeat (run evs n) = last_heartbeat n ∧
  (is_active n = true → is_primary n = false →
   PrimFloat.ltb 10 (now - last_heartbeat n) = true →
   step (HeartbeatMonitorTurn now) (run evs n)
   = (initiate_failover (run evs n)).1) ∧
  ∀ e client_id t v id stats,
    process_request e client_id (Heartbeat t v id stats) n
    = (Ok {[ "status" := JStr "error";
             "message" := JStr "Invalid request type" ]}, n, []).
Proof.
  intros Hevs.
  assert (∀ evs m, forallb client_request_not_sync evs = true →
            last_heartbeat (run evs m) = last_heartbeat m ∧
            is_active (run evs m) = is_active m ∧
            is_primary (run evs m) = is_primary m) as Hrun.
  { intros evs'. induction evs' as [|ev evs' IH]; intros m Hall; [done|].
    simpl in Hall. apply andb_true_iff in Hall as [Hev Hall].
    destruct ev as [a t0 t1 e req| | | | | |]; try done.
    simpl in Hev. apply negb_true_iff in Hev.
    change (run (ClientRequest a t0 t1 e req :: evs') m)
      with (run evs' (step (ClientRequest a t0 t1 e req) m)).
    destruct (IH (step (ClientRequest a t0 t1 e req) m) Hall)
      as (-> & -> & ->).
    simpl. unfold handle_request.
    set (cid := Some _).
    destruct (process_request_frame e cid req m) as (Ha & _ & Hl).
    specialize (Hl Hev).
    pose proof (process_request_role e cid req m) as Hrole.
    by destruct (process_request e cid req m) as [[[r|ex] m'] out]. }
  destruct (Hrun evs n Hevs) as (Hl & Ha & Hp).
  split; [done|]. split; [|done].
  intros Hact Hprim Ht. simpl. unfold heartbeat_monitor.
  by rewrite Ha, Hp, Hl, Hact, Hprim, Ht.
Qed.
End ReplicationFacts.

(** ** Invariants of the store along local mutations *)

Section StoreInvariants.
Context {B : Builtins}.

Lemma apply_mutation_log (em : env * mutation) (n : Node) :
  forwards_writes n = false →
  let n' := (apply_mutation em n).2 in
  (version_number n' = version_number n ∧
   transaction_log n' = transaction_log n) ∨
  (version_number n' = version_number n + 1 ∧
   ∃ tx, transaction_log n' = transaction_log n ++ [tx] ∧
         tx_version tx = version_number n + 1).
Proof.
  intros Hf. destruct em as [e [area shop product q|area shop product q]];
    unfold apply_mutation; simpl.
  - unfold buy_product. rewrite Hf.
    destruct (stock (inventory n) area shop product) as [c|]; [|by left].
    case_decide; [|by left]. right. split; [done|]. by eexists.
  - unfold add_stock. rewrite Hf. right. split; [done|]. by eexists.
Qed.

(** X17: on a node that applies its writes itself, any sequence of buy
    and add_stock requests keeps the log in step with the version: if the
    log records the versions 1, 2, ..., v for the version v held (as on a
    fresh node, with version 0 and an empty log), it does so afterwards;
    in particular the log has as many entries as the version says and the
    last entry carries the version held. *)
Theorem mutations_keep_log_consistent (ms : list (env * mutation))
    (n : Node) :
  forwards_writes n = false →
  log_consistent n →
  let n' := (mutation_log ms n).2 in
  log_consistent n' ∧
  Z.of_nat (length (transaction_log n')) = version_number n' ∧
  (transaction_log n' ≠ [] →
   tx_version <$> last (transaction_log n') = Some (version_number n')).
Proof.
  intros Hf Hc.
  assert (log_consistent (mutation_log ms n).2) as Hc'.
  { revert n Hf Hc. induction ms as [|m ms IH]; intros n Hf Hc; [done|].
    simpl. destruct (apply_mutation_version m n Hf) as [Hf1 _].
    pose proof (apply_mutation_log m n Hf) as Hlog.
    destruct (apply_mutation m n) as [r n1]. simpl in Hf1, Hlog.
    specialize (IH n1 Hf1). destruct (mutation_log ms n1) as [l n2].
    simpl in *. apply IH. unfold log_consistent in *.
    destruct Hc as [Hv Hl].
    destruct Hlog as [[-> ->]|(-> & tx & -> & Htx)]; [done|].
    split; [lia|]. rewrite fmap_app, Hl. simpl. rewrite Htx.
    replace (Z.to_nat (version_number n + 1))
      with (Z.to_nat (version_number n) + 1)%nat by lia.
    rewrite seq_app, fmap_app. simpl. do 2 f_equal. lia. }
  simpl. split; [done|]. destruct Hc' as [Hv Hl].
  assert (length (transaction_log (mutation_log ms n).2)
          = Z.to_nat (version_number (mutation_log ms n).2)) as Hlen.
  { rewrite <- (length_fmap tx_version), Hl, length_fmap. apply length_seq. }
  split; [lia|]. intros Hne.
  rewrite <- fmap_last, Hl, fmap_last.
  destruct (Z.to_nat (version_number (mutation_log ms n).2)) as [|k] eqn:Hk.
  { destruct (transaction_log (mutation_log ms n).2); [done|]. simpl in Hlen.
    lia. }
  rewrite seq_S, last_snoc. simpl. f_equal. lia.
Qed.

(** X18: a buy, whatever quantity it asks for (a negative one included),
    never leaves a negative quantity in an inventory that had none, and an
    add_stock of a non-negative quantity does not either; an add_stock of
    a negative quantity is not checked and can. *)
Theorem buy_keeps_inventory_nonneg (e : env) (area shop product : string)
    (quantity : Z) (n : Node) :
  inventory_nonneg (inventory n) →
  inventory_nonneg (inventory (buy_product e area shop product quantity n).1.2)
  ∧ (0 ≤ quantity → forwards_writes n = false →
     inventory_nonneg
       (inventory (add_stock e area shop product quantity n).1.2)).
Proof.
  intros Hinv. split.
  - unfold buy_product. destruct (forwards_writes n); [done|].
    destruct (stock (inventory n) area shop product) as [c|] eqn:Hs; [|done].
    case_decide as Hle; [|done]. simpl. intros a s p q.
    rewrite (stock_store_frame _ _ _ _ c) by done.
    case_decide; [intros [= <-]; lia | apply Hinv].
  - intros Hq Hf. unfold add_stock. rewrite Hf. simpl. intros a s p q.
    rewrite stock_add_to_inventory. case_decide; [|apply Hinv].
    intros [= <-].
    destruct (stock (inventory n) area shop product) as [c|] eqn:Hs;
      simpl; [|lia]. specialize (Hinv _ _ _ _ Hs). lia.
Qed.
End StoreInvariants.

(** An add_stock of -60 apples on the initial data, which holds 50, is
    answered with success and leaves -10 apples. *)
Example add_stock_negative_is_not_checked :
  let n := (add_stock (B := example_builtins) (demo_env NetTimeout)
              "borivali" "Fresh_Mart" "apple" (-60) demo_primary).1.2 in
  inventory_nonneg (inventory demo_primary) ∧
  stock (inventory n) "borivali" "Fresh_Mart" "apple" = Some (-10) ∧
  ¬ inventory_nonneg (inventory n).
Proof.
  split; [exact load_initial_data_nonneg|]. split; [reflexivity|].
  intros H.
  specialize (H "borivali" "Fresh_Mart" "apple" (-10) eq_refl)%string. lia.
Qed.

(** ** Searching *)

Section SearchFacts.
Context {B : Builtins}.

(** X19: [search_product] answers success with the version held and lists
    exactly the stock that is positive: on an inventory with distinct keys,
    the entry for an area, a shop and a quantity is in the results if and
    only if that shop of that area holds that quantity of the product and
    the quantity is positive; a product that is absent or out of stock
    everywhere gives an empty list, not an error. *)
Theorem search_product_lists_positive_stock (iso product : string)
    (n : Node) (area shop : string) (q : Z) :
  inventory_wf (inventory n) →
  let r := search_product iso product n in
  r !! "status" = Some (JStr "success") ∧
  r !! "version" = Some (JInt (version_number n)) ∧
  ∃ results,
    r !! "results" = Some (JList results) ∧
    (JObj {[ "area" := JStr area; "shop" := JStr shop;
             "quantity" := JInt q; "node" := JStr (node_id n) ]} ∈ results
     ↔ stock (inventory n) area shop product = Some q ∧ 0 < q) ∧
    ((∀ a s, match stock (inventory n) a s product with
             | Some c => c ≤ 0
             | None => True
             end) → results = []).
Proof.
  intros [Hareas Hshops]. unfold search_product. cbv zeta.
  match goal with |- context [JList ?l] => set (results := l) end.
  split; [done|]. split; [done|].
  exists results. split; [done|].
  pose (field := λ (k : string) (j : json),
          match j with JObj o => o !! k | _ => None end).
  assert (∀ x, x ∈ results →
            ∃ a s c, x = JObj {[ "area" := JStr a; "shop" := JStr s;
                                 "quantity" := JInt c;
                                 "node" := JStr (node_id n) ]} ∧
                     stock (inventory n) a s product = Some c ∧ 0 < c)
    as Hchar.
  { intros x Hin. subst results.
    apply list_elem_of_bind in Hin as ([a ad] & Hin & Ha).
    apply list_elem_of_bind in Hin as ([s items] & Hin & Hs).
    destruct (od_get product items) as [c|] eqn:Hc;
      [|by apply elem_of_nil in Hin].
    case_decide as Hpos; [|by apply elem_of_nil in Hin].
    apply list_elem_of_singleton in Hin. exists a, s, c.
    split; [done|]. split; [|done]. unfold stock.
    rewrite (od_get_NoDup _ _ _ Hareas Ha). simpl.
    by rewrite (od_get_NoDup _ _ _ (Hshops _ _ Ha) Hs). }
  split; [split|].
  - intros Hin. destruct (Hchar _ Hin) as (a & s & c & Heq & Hs & Hpos).
    pose proof (f_equal (field "area") Heq) as H1.
    pose proof (f_equal (field "shop") Heq) as H2.
    pose proof (f_equal (field "quantity") Heq) as H3.
    vm_compute in H1, H2, H3. by simplify_eq.
  - intros [Hs Hpos]. unfold stock in Hs. subst results.
    destruct (od_get area (areas (inventory n))) as [ad|] eqn:Ha; [|done].
    simpl in Hs.
    destruct (od_get shop (shops ad)) as [items|] eqn:Hsh; [|done].
    simpl in Hs. apply list_elem_of_bind. exists (area, ad).
    split; [|by apply od_get_elem_of].
    apply list_elem_of_bind. exists (shop, items).
    split; [|by apply od_get_elem_of].
    rewrite Hs, decide_True by done. apply list_elem_of_here.
  - intros Hnone. destruct results as [|x l] eqn:Hres; [done|].
    destruct (Hchar x) as (a & s & c & _ & Hs & Hpos); [left|].
    specialize (Hnone a s). rewrite Hs in Hnone. lia.
Qed.
End SearchFacts.

(** ** The algorithm along a run, and the reads *)

Section AlgorithmFacts.
Context {B : Builtins}.

Lemma update_node_metrics_algorithm (node : string) (t : float) (ok : bool)
    (lb : LoadBalancer) :
  current_algorithm (update_node_metrics node t ok lb).2
  = current_algorithm lb.
Proof. unfold update_node_metrics. repeat (case_match; simpl; try done). Qed.

Lemma get_next_node_algorithm (r : float) (k : nat) (cid : option string)
    (lb : LoadBalancer) :
  current_algorithm (get_next_node r k cid lb).2 = current_algorithm lb.
Proof.
  unfold get_next_node, hash_based, round_robin.
  repeat (case_match; simpl; try done).
Qed.

Lemma forward_attempt_algorithm (e : env) (target product : string)
    (lb : LoadBalancer) (n : Node) :
  current_algorithm (forward_attempt e target product lb n).2
  = current_algorithm lb.
Proof.
  unfold forward_attempt, on_forward_error.
  destruct (env_net e) as [|msg|r].
  - by case_decide.
  - pose proof (update_node_metrics_algorithm target
                  (env_t_except e - env_t_start e) false lb) as H.
    by destruct (update_node_metrics _ _ false lb) as [[[]|ex] lb'].
  - pose proof (update_node_metrics_algorithm target
                  (env_t_done e - env_t_start e) (status_is_success r) lb)
      as H.
    destruct (update_node_metrics _ _ (status_is_success r) lb)
      as [[[]|ex] lb']; [done|]. simpl in H.
    pose proof (update_node_metrics_algorithm target
                  (env_t_except e - env_t_start e) false lb') as H'.
    destruct (update_node_metrics _ _ false lb') as [[[]|ex'] lb''];
      simpl in *; congruence.
Qed.

Lemma forward_read_request_algorithm (e : env) (p : Z) (product : string)
    (n : Node) :
  algorithm_known n → algorithm_known (forward_read_request e p product n).2.
Proof.
  intros Hn. unfold forward_read_request.
  destruct (load_balancer n) as [lb|] eqn:Hlb; [|done].
  pose proof (forward_attempt_algorithm e (backup_name p) product
                (increment_connections (backup_name p) lb) n) as H.
  destruct (forward_attempt _ _ _ _ _) as [r lb2]. simpl in *.
  intros lb' [= <-]. unfold decrement_connections.
  case_decide; simpl; rewrite H; by apply Hn.
Qed.

Lemma process_request_algorithm (e : env) (cid : option string)
    (req : request) (n : Node) :
  algorithm_known n → algorithm_known (process_request e cid req n).1.2.
Proof.
  intros Hn. destruct req; unfold process_request; simpl; try done.
  - destruct (is_primary n && _); [|done].
    unfold handle_load_balanced_read.
    destruct (load_balancer n) as [lb|] eqn:Hlb; [|done].
    pose proof (get_next_node_algorithm (env_rand e) (env_choice e) cid lb)
      as Halg.
    destruct (get_next_node _ _ _ _) as [[sel|ex] lb']; simpl in *.
    2: { intros lb2 [= <-]. rewrite Halg. by apply Hn. }
    assert (algorithm_known (set_load_balancer (Some lb') n)) as Hn1.
    { intros lb2 [= <-]. rewrite Halg. by apply Hn. }
    destruct (falsy sel); [done|].
    destruct (_ !! 1%nat) as [digits|]; [|done].
    destruct (int_of_str digits) as [p|]; [|done].
    pose proof (forward_read_request_algorithm e p product _ Hn1) as H2.
    destruct (forward_read_request _ _ _ _) as [[r|[]] n2]; done.
  - unfold buy_product. repeat case_match; done.
  - unfold add_stock. by case_match.
  - unfold handle_replication. by case_match.
  - unfold configure_load_balancer.
    destruct (is_primary n); [|done].
    destruct (load_balancer n) as [lb|] eqn:Hlb; [|done].
    unfold set_algorithm. case_decide; simpl; intros lb' [= <-]; [done|].
    by apply Hn.
Qed.

Lemma step_algorithm (ev : event) (n : Node) :
  algorithm_known n → algorithm_known (step ev n).
Proof.
  intros Hn. destruct ev; simpl.
  - unfold handle_request.
    pose proof (process_request_algorithm e
                  (Some (client_address.1 +:+ ":" +:+ pretty client_address.2))
                  req n Hn) as H.
    by destruct (process_request _ _ _ _) as [[[r|ex] n'] out].
  - unfold heartbeat_monitor. repeat case_match; try done.
    simpl. intros lb [= <-]. simpl. unfold algorithms.
    apply elem_of_cons. by left.
  - unfold heartbeat_sender. case_match; [|done]. simpl.
    destruct (load_balancer n) as [lb|] eqn:Hlb; [|done].
    intros lb' [= <-]. exact (Hn lb Hlb).
  - unfold backup_monitor. case_match; [|done]. simpl.
    destruct (load_balancer n) as [lb|] eqn:Hlb; [|done].
    intros lb' [= <-]. exact (Hn lb Hlb).
  - unfold load_balancer_monitor.
    destruct (load_balancer n) as [lb|] eqn:Hlb; [|done].
    repeat case_match; try done. simpl.
    intros lb' [= <-]. simpl. unfold algorithms.
    apply elem_of_cons. right. apply elem_of_cons. by left.
  - unfold performance_monitor. by case_match.
  - done.
Qed.

(** X20: in every state a node reaches from its start, the algorithm of
    its load balancer is one of round_robin, weighted, least_connections
    and hash_based, so the dispatch of [get_next_node] never fails; the one
    exception a selection can raise is the [IndexError] of a cursor that is
    at or past the end of the active list. *)
Theorem reachable_selection_errors (id : string) (p : Z) (primary : bool)
    (now : float) (evs : list event) (lb : LoadBalancer) (r : float)
    (k : nat) (client_id : option string) (ex : exn) :
  let n := run evs (Node_init id p primary now) in
  load_balancer n = Some lb →
  current_algorithm lb ∈ algorithms ∧
  ((get_next_node r k client_id lb).1 = Raise ex →
   ex = IndexError ∧
   (length (active_nodes lb) ≤ round_robin_index lb)%nat ∧
   (get_next_node r k client_id lb).2 = lb).
Proof.
  intros n Hlb.
  assert (algorithm_known n) as Hn.
  { subst n.
    assert (algorithm_known (Node_init id p primary now)) as Hinit.
    { intros lb0. destruct primary; simpl; [|done].
      intros [= <-]. simpl. unfold algorithms. apply elem_of_cons. by left. }
    revert Hinit. generalize (Node_init id p primary now). clear.
    induction evs as [|ev evs IH]; intros n Hn; [done|].
    simpl. apply IH. by apply step_algorithm. }
  specialize (Hn lb Hlb). split; [done|].
  assert (∀ x, (round_robin lb).1 = Raise x →
            x = IndexError ∧
            (length (active_nodes lb) ≤ round_robin_index lb)%nat ∧
            (round_robin lb).2 = lb) as Hrr.
  { intros x. unfold round_robin.
    destruct (active_nodes lb) as [|y l] eqn:Hact; [done|].
    destruct (_ !! _) eqn:Hlook; [done|]. simpl. intros [= <-].
    split; [done|]. split; [|done]. by apply lookup_ge_None_1 in Hlook. }
  unfold get_next_node.
  destruct (active_nodes lb) as [|y l] eqn:Hact; [done|].
  repeat case_decide; try done.
  - apply Hrr.
  - unfold hash_based. rewrite Hact. cbn [bool_decide decide_rel orb].
    rewrite bool_decide_eq_false_2 by done. cbn [orb].
    destruct (falsy client_id); [apply Hrr|].
    match goal with |- context [(y :: l) !! ?i] =>
      destruct (lookup_lt_is_Some_2 (y :: l) i) as [node ->] end; [|done].
    apply Nat.mod_upper_bound. simpl. lia.
  - exfalso. unfold algorithms in Hn.
    repeat (apply elem_of_cons in Hn as [?|Hn]; [done|]).
    by apply elem_of_nil in Hn.
Qed.

(** X21: a search on a primary whose active list is empty (as before the
    first health check, or when no backup answers) is served locally: the
    answer is the local search result, without the [load_balanced] key,
    and the node is unchanged.  The same local answer is given when the
    name of the selected node has no second part after a '-' or when that
    part is not a number: such a node is never contacted. *)
Theorem handle_load_balanced_read_local (e : env) (client_id : option string)
    (product : string) (n : Node) (lb : LoadBalancer) :
  load_balancer n = Some lb →
  let local := search_product (env_iso e) product n in
  local !! "load_balanced" = None ∧
  local !! "status" = Some (JStr "success") ∧
  (active_nodes lb = [] →
   handle_load_balanced_read e client_id product n = (Ok local, n)) ∧
  (∀ node lb',
     get_next_node (env_rand e) (env_choice e) client_id lb
     = (Ok (Some node), lb') →
     (digits ← split_on "-" node !! 1%nat; int_of_str digits) = None →
     handle_load_balanced_read e client_id product n
     = (Ok local, set_load_balancer (Some lb') n)).
Proof.
  intros Hlb local. split; [done|]. split; [done|].
  unfold handle_load_balanced_read. rewrite Hlb. split.
  - intros Hact. unfold get_next_node. rewrite Hact. simpl.
    f_equal. destruct n; simpl in *. by rewrite Hlb.
  - intros node lb' -> Hbad. simpl.
    destruct (bool_decide (node = "")); [done|].
    destruct (split_on "-" node !! 1%nat) as [digits|]; [|done].
    simpl in Hbad. by rewrite Hbad.
Qed.

(** X22: a forwarded read that gets a reply returns the reply of the
    backup with [load_balanced] true, [served_by] the name of the target
    (in place of what the backup wrote there) and the response time, and
    every other field as the backup sent it; the active list, the
    inventory and the version of the primary are unchanged.  This holds
    when the reply has status success, and for another reply when the
    target has a weight. *)
Theorem forward_read_request_reply (e : env) (target_port : Z)
    (product : string) (n : Node) (lb : LoadBalancer) (reply : response) :
  load_balancer n = Some lb →
  env_net e = NetReply reply →
  status_is_success reply = true
  ∨ is_Some (node_weights lb !! backup_name target_port) →
  ∃ r lb',
    forward_read_request e target_port product n
    = (Ok r, set_load_balancer (Some lb') n) ∧
    r !! "load_balanced" = Some (JBool true) ∧
    r !! "served_by" = Some (JStr (backup_name target_port)) ∧
    r !! "response_time"
    = Some (JFloat (env_t_done e - env_t_start e)%float) ∧
    (∀ key, key ∉ ["load_balanced"; "served_by"; "response_time"]%string →
            r !! key = reply !! key) ∧
    active_nodes lb' = active_nodes lb.
Proof.
  intros Hlb Hnet Hok. unfold forward_read_request. rewrite Hlb.
  unfold forward_attempt. rewrite Hnet.
  set (target := backup_name target_port).
  set (t := (env_t_done e - env_t_start e)%float).
  assert ((update_node_metrics target t (status_is_success reply)
             (increment_connections target lb)).1 = Ok ()) as Hupd.
  { destruct Hok as [->|Hw].
    - unfold update_node_metrics. cbv zeta. by case_match.
    - destruct (status_is_success reply).
      + unfold update_node_metrics. cbv zeta. by case_match.
      + by apply update_node_metrics_failure. }
  pose proof (update_node_metrics_connections target t
                (status_is_success reply) (increment_connections target lb))
    as [_ Hact].
  destruct (update_node_metrics target t _ _) as [[[]|ex] lb2]; [|done].
  do 2 eexists. split; [done|].
  split; [by rewrite lookup_insert_ne, lookup_insert_ne, lookup_insert_eq|].
  split; [by rewrite lookup_insert_ne, lookup_insert_eq|].
  split; [by rewrite lookup_insert_eq|]. split.
  - intros key Hkey. rewrite !lookup_insert_ne; [done|..];
      intros <-; apply Hkey; repeat (apply elem_of_cons; (by left) || right).
  - by rewrite decrement_connections_active.
Qed.

(** X23: the configuration of the load balancer.  On a primary with a load
    balancer, a name among the four known algorithms is installed and
    answered with success, and nothing else of the node changes; any other
    name is answered with an error and the node stays as it was.  A backup
    answers 'Load balancer not available' and stays as it was. *)
Theorem configure_load_balancer_spec (algorithm : string) (n : Node) :
  let '(r, n') := configure_load_balancer algorithm n in
  (is_primary n = false ∨ load_balancer n = None →
   n' = n ∧ r !! "status" = Some (JStr "error") ∧
   r !! "message" = Some (JStr "Load balancer not available")) ∧
  (∀ lb, is_primary n = true → load_balancer n = Some lb →
     if decide (algorithm ∈ algorithms) then
       r !! "status" = Some (JStr "success") ∧
       n' = set_load_balancer (Some (set_algorithm algorithm lb).2) n ∧
       current_algorithm (set_algorithm algorithm lb).2 = algorithm ∧
       active_nodes (set_algorithm algorithm lb).2 = active_nodes lb ∧
       round_robin_index (set_algorithm algorithm lb).2
       = round_robin_index lb
     else
       r !! "status" = Some (JStr "error") ∧ n' = n).
Proof.
  unfold configure_load_balancer, set_algorithm.
  destruct (is_primary n) eqn:Hp.
  - destruct (load_balancer n) as [lb|] eqn:Hlb.
    + case_decide as Halg.
      * split; [by intros [?|?]|]. by intros lb0 _ [= <-].
      * split; [by intros [?|?]|]. intros lb0 _ [= <-].
        split; [done|]. destruct n; simpl in *. by rewrite Hlb.
    + split; [intros _; by repeat split | intros lb0 _ H; discriminate H].
  - split; [intros _; by repeat split | intros lb H; discriminate H].
Qed.
End AlgorithmFacts.

(** ** Shutdown and the answers to clients *)

Section ClientFacts.
Context {B : Builtins} {J : Json}.

(** X24: after [shutdown] the node is inactive for good, and the turns of
    the five background loops do nothing any more: a run of such turns
    leaves the node exactly as the shutdown left it (no heartbeat, no
    health check, no fail-over), and no run at all, requests included,
    makes the node active again. *)
Theorem shutdown_stops_background (evs : list event) (n : Node) :
  is_active (run evs (shutdown n)) = false ∧
  (forallb background evs = true → run evs (shutdown n) = shutdown n).
Proof.
  assert (∀ ev m, is_active m = false → is_active (step ev m) = false) as Hstep.
  { intros ev m Hm. destruct ev; simpl.
    - unfold handle_request.
      pose proof (process_request_frame e
        (Some (client_address.1 +:+ ":" +:+ pretty client_address.2)) req m)
        as [H _].
      destruct (process_request _ _ _ _) as [[[r|ex] m'] out]; simpl in *;
        congruence.
    - unfold heartbeat_monitor. by rewrite Hm.
    - unfold heartbeat_sender. by rewrite Hm.
    - unfold backup_monitor. by rewrite Hm.
    - unfold load_balancer_monitor. rewrite Hm. by destruct (load_balancer m).
    - unfold performance_monitor. by rewrite Hm.
    - done. }
  assert (∀ ev m, is_active m = false → background ev = true →
            step ev m = m) as Hbg.
  { intros ev m Hm Hev. destruct ev; simpl; try done.
    - unfold heartbeat_monitor. by rewrite Hm.
    - unfold heartbeat_sender. by rewrite Hm.
    - unfold backup_monitor. by rewrite Hm.
    - unfold load_balancer_monitor. rewrite Hm. by destruct (load_balancer m).
    - unfold performance_monitor. by rewrite Hm.
    - unfold shutdown. destruct m; simpl in *. by rewrite Hm. }
  assert (is_active (shutdown n) = false) as Hs by done.
  revert Hs. generalize (shutdown n). clear n.
  induction evs as [|ev evs IH]; intros m Hm; [done|].
  simpl. destruct (IH (step ev m) (Hstep ev m Hm)) as [IH1 IH2].
  split; [done|]. intros [Hev Hall]%andb_true_iff.
  rewrite (Hbg ev m Hm Hev) in IH2 |- *. by apply (IH m Hm).
Qed.



End ClientFacts.

(** The status of a node that has served nothing reports its three metrics
    as the int 0 of [__init__]; after a request and a turn of the
    performance monitor they are floats. *)
Example fresh_node_status :
  let fresh := get_node_status 1%float demo_backup in
  let later :=
    get_node_status 1%float
      (performance_monitor 0.5%float 0.5%float
         (update_metrics 0.25%float true demo_backup)) in
  fresh !! "average_response_time" = Some (JInt 0) ∧
  fresh !! "cpu_usage" = Some (JInt 0) ∧
  fresh !! "memory_usage" = Some (JInt 0) ∧
  later !! "average_response_time" = Some (JFloat 0.25) ∧
  later !! "cpu_usage" = Some (JFloat 50) ∧
  later !! "memory_usage" = Some (JFloat 50).
Proof. repeat split; vm_compute; reflexivity. Qed.

(** ** The properties above on concrete nodes *)

Lemma buy_product_commit_witness :
  forwards_writes demo_primary = false ∧
  stock (inventory demo_primary) "borivali" "Fresh_Mart" "apple" = Some 50 ∧
  4 ≤ 50 ∧
  version_number demo_primary_v1 = 1 ∧
  stock (inventory demo_primary_v1) "borivali" "Fresh_Mart" "banana"
  = Some 30.
Proof.
  assert (4 ≤ 50) as H3 by lia.
  split; [reflexivity|]. split; [reflexivity|]. split; [exact H3|].
  pose proof (buy_product_commit (B := example_builtins) (demo_env NetTimeout)
                "borivali" "Fresh_Mart" "apple" 4 50 demo_primary
                eq_refl eq_refl H3) as H.
  unfold demo_primary_v1.
  destruct (buy_product _ _ _ _ _ _) as [[r n'] out].
  destruct H as (Hframe & Hv & _). split; [exact Hv|].
  rewrite Hframe. reflexivity.
Defined.

Lemma add_stock_commit_witness :
  forwards_writes demo_primary = false ∧
  let n' := (add_stock (B := example_builtins) (demo_env NetTimeout)
               "dadar" "Corner" "tea" 7 demo_primary).1.2 in
  stock (inventory n') "dadar" "Corner" "tea" = Some 7 ∧
  version_number n' = 1.
Proof.
  split; [reflexivity|].
  pose proof (add_stock_commit (B := example_builtins) (demo_env NetTimeout)
                "dadar" "Corner" "tea" 7 demo_primary eq_refl) as H.
  destruct (add_stock _ _ _ _ _ _) as [[r n'] out].
  destruct H as (_ & _ & Hframe & Hv & _). simpl. split; [|exact Hv].
  rewrite Hframe. reflexivity.
Defined.

Lemma backup_forwards_writes_witness :
  is_primary demo_backup = false ∧
  is_Some (primary_address demo_backup) ∧
  (process_request (B := example_builtins) (demo_env NetTimeout) None
     (AddStock "borivali" "Fresh_Mart" "apple" 5) demo_backup).1.2
  = demo_backup.
Proof.
  assert (is_Some (primary_address demo_backup)) as H2 by (eexists; reflexivity).
  split; [reflexivity|]. split; [exact H2|].
  destruct (backup_forwards_writes (B := example_builtins)
              (demo_env NetTimeout) None "borivali" "Fresh_Mart" "apple" 5
              demo_backup eq_refl H2) as (_ & _ & ->).
  reflexivity.
Defined.

(** The reader of the examples finds no message in a proper prefix of the
    sync_request of the primary with eight log entries. *)
Lemma demo_sync_v8_no_prefix_decodes :
  no_prefix_decodes (J := example_json)
    (write_request (sync_message demo_primary_v8)).
Proof.
  intros s Hpre Hne. cbn [json_loads example_json].
  destruct (List.find _ _) as [m|] eqn:Hfind; [|done].
  apply List.find_some in Hfind as [Hin Heq].
  apply String.eqb_eq in Heq. subst s.
  destruct Hin as [<-|[<-|[<-|[<-|[<-|[]]]]]];
    vm_compute in Hpre; discriminate Hpre.
Qed.

Lemma backup_monitor_resyncs_witness :
  let probe := λ _ : Z, ProbeStatus None in
  let text := write_request (sync_message demo_primary_v1) in
  is_active demo_primary_v1 = true ∧
  is_primary demo_primary_v1 = true ∧
  8001 ∈ backup_ports demo_primary_v1 ∧
  sync_backup 8001 demo_primary_v1 ∈ (backup_monitor probe demo_primary_v1).2 ∧
  String.length text = 931%nat ∧
  ∃ r b',
    handle_client (B := example_builtins) (J := example_json)
      ("127.0.0.1"%string, 5000) 1%float 1.5%float (demo_env NetTimeout)
      (Arrived text) demo_backup
    = (Some r, b', []) ∧
    inventory b' = inventory demo_primary_v1 ∧
    version_number b' = 1.
Proof.
  intros probe text.
  assert (8001 ∈ backup_ports demo_primary_v1) as H3 by apply list_elem_of_here.
  split; [reflexivity|]. split; [reflexivity|]. split; [exact H3|].
  destruct (backup_monitor_resyncs (B := example_builtins)
              (J := example_json) probe demo_primary_v1 8001
              (inventory demo_primary_v1) ("127.0.0.1"%string, 5000)
              1%float 1.5%float (demo_env NetTimeout) ""%string demo_backup
              eq_refl eq_refl H3) as (_ & _ & Hsent & Hwhole & _).
  split; [apply Hsent; simpl; reflexivity|].
  assert (String.length text = 931%nat) as Hlen by (vm_compute; reflexivity).
  split; [exact Hlen|].
  change (json_dumps (on_wire (sync_message demo_primary_v1)
                        (inventory demo_primary_v1)))
    with text in Hwhole.
  destruct Hwhole as (r & b' & Hhc & _ & Hinv & Hv).
  - intros Hempty. rewrite Hempty in Hlen. discriminate Hlen.
  - rewrite Hlen. apply Nat.leb_le. vm_compute. reflexivity.
  - vm_compute. reflexivity.
  - by exists r, b'.
Defined.

(** The sync_request of a primary with eight log entries has 2205 bytes in
    the text of the examples.  The backup reads 2048 of them, which do not
    decode: it answers nothing and keeps version 0. *)
Example oversized_sync_is_dropped :
  let text := write_request (sync_message demo_primary_v8) in
  version_number demo_primary_v8 = 8 ∧
  length (transaction_log demo_primary_v8) = 8%nat ∧
  String.length text = 2205%nat ∧
  handle_client (B := example_builtins) (J := example_json)
    ("127.0.0.1"%string, 5000) 1%float 1.5%float (demo_env NetTimeout)
    (Arrived text) demo_backup
  = (None, demo_backup, []) ∧
  version_number demo_backup = 0.
Proof.
  intros text.
  assert (String.length text = 2205%nat) as Hlen by (vm_compute; reflexivity).
  split; [vm_compute; reflexivity|]. split; [vm_compute; reflexivity|].
  split; [exact Hlen|]. split; [|reflexivity].
  apply (handle_client_cut_short (J := example_json) _ _ _ _ text).
  - rewrite Hlen. apply Nat.ltb_lt. vm_compute. reflexivity.
  - apply demo_sync_v8_no_prefix_decodes.
  - clear Hlen. vm_compute. reflexivity.
Qed.

Lemma replication_installs_primary_state_witness :
  Send 8002 demo_replicate
  ∈ replicate_to_backups (demo_transaction 1) demo_primary_v1 ∧
  is_primary demo_backup = false ∧
  length (replicate_to_backups (demo_transaction 1) demo_primary_v1)
  = length (backup_ports demo_primary_v1).
Proof.
  assert (Send 8002 demo_replicate
          ∈ replicate_to_backups (demo_transaction 1) demo_primary_v1) as H1
    by apply list_elem_of_further, list_elem_of_here.
  split; [exact H1|]. split; [reflexivity|].
  exact (proj1 (replication_installs_primary_state (B := example_builtins)
                  (J := example_json) (demo_transaction 1) demo_primary_v1
                  (Send 8002 demo_replicate) (inventory demo_primary_v1)
                  ("127.0.0.1"%string, 5000) 1%float 1.5%float
                  (demo_env NetTimeout) ""%string demo_backup H1 eq_refl)).
Defined.

(** The sender thread of the replication of version 1 runs after the
    second buy of the primary.  The text it writes has the inventory of
    version 2 under version 1, and the backup that reads it holds 45
    apples under version 1, where the primary held 46. *)
Example late_sender_mixes_versions :
  let text :=
    (send_to_backup (J := example_json) 8001 demo_replicate
       (inventory demo_primary_v2)).2 in
  let b' :=
    (handle_client (B := example_builtins) (J := example_json)
       ("127.0.0.1"%string, 5000) 1%float 1.5%float (demo_env NetTimeout)
       (Arrived text) demo_backup).1.2 in
  stock (inventory demo_primary_v1) "borivali" "Fresh_Mart" "apple" = Some 46 ∧
  version_number demo_primary_v1 = 1 ∧
  stock (inventory demo_primary_v2) "borivali" "Fresh_Mart" "apple" = Some 45 ∧
  version_number demo_primary_v2 = 2 ∧
  stock (inventory b') "borivali" "Fresh_Mart" "apple" = Some 45 ∧
  version_number b' = 1.
Proof. repeat split; vm_compute; reflexivity. Qed.

Lemma heartbeat_messages_do_not_refresh_witness :
  forallb client_request_not_sync demo_heartbeats = true ∧
  last_heartbeat (run (B := example_builtins) demo_heartbeats demo_backup)
  = last_heartbeat demo_backup.
Proof.
  split; [reflexivity|].
  exact (proj1 (heartbeat_messages_do_not_refresh (B := example_builtins)
                  demo_heartbeats 20%float demo_backup eq_refl)).
Defined.

(** A backup that received the three heartbeats of [demo_heartbeats], the
    last one 9 seconds after its start, is promoted by the turn of its
    heartbeat monitor at 20 seconds. *)
Example heartbeats_do_not_prevent_failover :
  role (step (B := example_builtins) (HeartbeatMonitorTurn 20%float)
          (run (B := example_builtins) demo_heartbeats demo_backup))
  = Primary.
Proof. vm_compute. reflexivity. Qed.

Lemma mutations_keep_log_consistent_witness :
  let e := demo_env NetTimeout in
  let ms := [(e, MBuy "borivali" "Fresh_Mart" "apple" 4);
             (e, MBuy "borivali" "Fresh_Mart" "apple" 100);
             (e, MAddStock "borivali" "Fresh_Mart" "pear" 5)]%string in
  forwards_writes demo_primary = false ∧
  log_consistent demo_primary ∧
  log_consistent (mutation_log (B := example_builtins) ms demo_primary).2.
Proof.
  intros e ms.
  assert (log_consistent demo_primary) as H2 by (split; [simpl; lia | reflexivity]).
  split; [reflexivity|]. split; [exact H2|].
  exact (proj1 (mutations_keep_log_consistent (B := example_builtins) ms
                  demo_primary eq_refl H2)).
Defined.

Lemma buy_keeps_inventory_nonneg_witness :
  inventory_nonneg (inventory demo_primary) ∧
  inventory_nonneg (inventory demo_primary_v1).
Proof.
  split; [exact load_initial_data_nonneg|].
  exact (proj1 (buy_keeps_inventory_nonneg (B := example_builtins)
                  (demo_env NetTimeout) "borivali" "Fresh_Mart" "apple" 4
                  demo_primary load_initial_data_nonneg)).
Defined.

Lemma search_product_lists_positive_stock_witness :
  inventory_wf (inventory demo_primary) ∧
  search_product "t" "apple" demo_primary !! "status"
  = Some (JStr "success").
Proof.
  split; [exact load_initial_data_wf|].
  exact (proj1 (search_product_lists_positive_stock "t" "apple" demo_primary
                  "borivali" "Fresh_Mart" 50 load_initial_data_wf)).
Defined.

Lemma reachable_selection_errors_witness :
  let n := run (B := example_builtins)
             [HeartbeatSenderTurn 1%float (λ _, true)]
             (Node_init "node1" 8000 true 0%float) in
  load_balancer n = Some demo_balancer ∧
  current_algorithm demo_balancer ∈ algorithms.
Proof.
  intros n. split; [reflexivity|].
  exact (proj1 (reachable_selection_errors (B := example_builtins) "node1"
                  8000 true 0%float [HeartbeatSenderTurn 1%float (λ _, true)]
                  demo_balancer 0.5%float 0 None IndexError eq_refl)).
Defined.

Lemma handle_load_balanced_read_local_witness :
  load_balancer demo_primary = Some (set_active_nodes [] LoadBalancer_init) ∧
  (search_product "2024-01-01T00:00:00" "apple" demo_primary)
    !! "load_balanced" = None.
Proof.
  split; [reflexivity|].
  exact (proj1 (handle_load_balanced_read_local (B := example_builtins)
                  (demo_env NetTimeout) None "apple" demo_primary
                  (set_active_nodes [] LoadBalancer_init) eq_refl)).
Defined.

Lemma forward_read_request_reply_witness :
  let reply : response := {[ "status" := JStr "success" ]} in
  load_balancer demo_primary_two = Some demo_balancer ∧
  env_net (demo_env (NetReply reply)) = NetReply reply ∧
  (status_is_success reply = true
   ∨ is_Some (node_weights demo_balancer !! backup_name 8001)) ∧
  ∃ r lb',
    forward_read_request (B := example_builtins) (demo_env (NetReply reply))
      8001 "apple" demo_primary_two
    = (Ok r, set_load_balancer (Some lb') demo_primary_two) ∧
    r !! "load_balanced" = Some (JBool true).
Proof.
  intros reply.
  assert (status_is_success reply = true
          ∨ is_Some (node_weights demo_balancer !! backup_name 8001)) as H3
    by (left; reflexivity).
  split; [reflexivity|]. split; [reflexivity|]. split; [exact H3|].
  destruct (forward_read_request_reply (B := example_builtins)
              (demo_env (NetReply reply)) 8001 "apple" demo_primary_two
              demo_balancer reply eq_refl eq_refl H3)
    as (r & lb' & H & Hlb & _).
  exists r, lb'. split; [exact H | exact Hlb].
Defined.

Lemma role_change_is_failover_witness :
  let ev := HeartbeatMonitorTurn 20%float in
  role (step (B := example_builtins) ev demo_backup) ≠ role demo_backup ∧
  step (B := example_builtins) ev demo_backup
  = (initiate_failover demo_backup).1.
Proof.
  intros ev.
  assert (role (step (B := example_builtins) ev demo_backup)
          ≠ role demo_backup) as H by discriminate.
  split; [exact H|].
  destruct (role_change_is_failover (B := example_builtins) ev demo_backup H)
    as (now & _ & _ & Hstep).
  exact Hstep.
Defined.
